(** * fwunit.srx.parse: extraction of policies, routes and zones from SRX XML

    A shallow embedding of [src/fwunit/srx/parse.py].  The three extractors
    ([Firewall._parse_policies], [Firewall._parse_routes],
    [Firewall._parse_zones]) are pure functions of an ElementTree document;
    Python exceptions are modelled by an error monad, dictionaries by
    [gmap], and [for] loops by folds that stop at the first exception. *)

From Stdlib Require Import ZArith Ascii String List Lia.
From stdpp Require Import base option list strings gmap fin_maps.

Local Open Scope string_scope.
Local Open Scope list_scope.

(** ** Python exceptions *)

Inductive PyError : Type :=
| AttributeError   (* [None.text] *)
| TypeError        (* [int(None)], [for x in None], [IP(None)] *)
| ValueError       (* [int('abc')], [IP('junk')] *)
| KeyError.        (* [d[k]] with [k] absent *)

Inductive result (A : Type) : Type :=
| Ok (a : A)
| Raise (e : PyError).
Arguments Ok {A} a.
Arguments Raise {A} e.

#[global] Instance result_ret : MRet result := fun A a => Ok a.
#[global] Instance result_bind : MBind result := fun A B f m =>
  match m with
  | Ok a => f a
  | Raise e => Raise e
  end.

Definition raises {A} (m : result A) : Prop := exists e, m = Raise e.

Definition is_ok {A} (m : result A) : bool :=
  match m with Ok _ => true | Raise _ => false end.

(** ** ElementTree documents *)

(** An [xml.etree.ElementTree.Element]: its tag, its text ([None] when the
    element has no character data) and its child elements in document
    order.  Attributes and tails are never read by the parser. *)
#[warnings="-register-all"]
Inductive Element : Type :=
  Elem { tag : string; text : option string; children : list Element }.

(** [Element.iter()]: the element itself, then its descendants, in document
    (pre-)order. *)
Fixpoint iter (e : Element) : list Element :=
  match e with
  | Elem _ _ cs =>
      e :: (fix iter_all (l : list Element) : list Element :=
              match l with
              | [] => []
              | c :: l' => iter c ++ iter_all l'
              end) cs
  end.

(** The steps of the ElementPath expressions used by the parser:
    [tag] (or [./tag]) selects children by tag, [*] selects all children and
    [.//tag] selects the proper descendants with that tag. *)
Inductive step : Type :=
| Child (t : string)
| Star
| Descendant (t : string).

Definition has_tag (t : string) (e : Element) : bool := String.eqb (tag e) t.

Definition select (s : step) (e : Element) : list Element :=
  match s with
  | Child t => List.filter (has_tag t) (children e)
  | Star => children e
  | Descendant t => List.filter (has_tag t) (tl (iter e))
  end.

Fixpoint iterfind (path : list step) (ctx : list Element) : list Element :=
  match path with
  | [] => ctx
  | s :: path' => iterfind path' (flat_map (select s) ctx)
  end.

(** [elem.findall(path)], [elem.find(path)], [elem.findtext(path)]. *)
Definition findall (e : Element) (path : list step) : list Element :=
  iterfind path [e].

Definition find (e : Element) (path : list step) : option Element :=
  hd_error (findall e path).

Definition findtext (e : Element) (path : list step) : option string :=
  match find e path with
  | Some x => Some (match text x with Some s => s | None => "" end)
  | None => None
  end.

(** [x.text] where [x] is the result of [find]: an [AttributeError] when
    [find] returned [None]. *)
Definition text_of (x : option Element) : result (option string) :=
  match x with
  | Some e => Ok (text e)
  | None => Raise AttributeError
  end.

(** Python truth values of a list and of a string-or-[None]. *)
Definition truthy_list {A} (l : list A) : bool :=
  match l with [] => false | _ :: _ => true end.

Definition truthy_str (s : option string) : bool :=
  match s with
  | None | Some EmptyString => false
  | Some (String _ _) => true
  end.

(** A list comprehension whose element expression may raise. *)
Fixpoint list_comp {A B} (f : A -> result B) (l : list A) : result (list B) :=
  match l with
  | [] => Ok []
  | x :: l' => y ← f x; ys ← list_comp f l'; Ok (y :: ys)
  end.

(** A [for] loop whose body may raise: the state is threaded through the
    items in order and the first exception ends the loop. *)
Fixpoint for_each {A S} (body : S -> A -> result S) (l : list A) (s : S)
  : result S :=
  match l with
  | [] => Ok s
  | x :: l' => s' ← body s x; for_each body l' s'
  end.

(** ** Decimal numerals *)

(** The value of a run of ASCII decimal digits, as [int] and the CIDR
    notation read it. *)
Definition digit_val (c : ascii) : option Z :=
  let n := Z.of_N (N_of_ascii c) in
  if ((48 <=? n) && (n <=? 57))%Z then Some (n - 48)%Z else None.

Fixpoint digits_val (acc : Z) (s : string) : option Z :=
  match s with
  | EmptyString => Some acc
  | String c s' =>
      match digit_val c with
      | Some d => digits_val (10 * acc + d)%Z s'
      | None => None
      end
  end.

(** A non-empty run of decimal digits. *)
Definition decimal (s : string) : option Z :=
  match s with
  | EmptyString => None
  | _ => digits_val 0 s
  end.

(** ** IP networks and IP sets *)

Module ip.

(** Modelled from the spec: the module [fwunit.ip] ([IP], [IPSet]) is not
    part of the sources at hand.  The spec asks of it an IP network value
    built from a CIDR string and a set value with construction, union
    (addition) and equality by value.  An [IP] is an IPv4 prefix: a 32-bit
    network number and a prefix length; an [IPSet] is the list of its
    prefixes, read as the set of addresses they cover. *)
Record IP : Type := mkIP { net : Z; prefixlen : Z }.

(** [s.split(sep)] for a one-character separator. *)
Fixpoint split_on (sep : ascii) (s : string) : list string :=
  match s with
  | EmptyString => [EmptyString]
  | String c s' =>
      if Ascii.eqb c sep then EmptyString :: split_on sep s'
      else match split_on sep s' with
           | [] => [String c EmptyString]
           | w :: ws => String c w :: ws
           end
  end.

Definition octet (s : string) : option Z :=
  match decimal s with
  | Some n => if (n <=? 255)%Z then Some n else None
  | None => None
  end.

Definition dotted_quad (s : string) : option Z :=
  match split_on "." s with
  | [a; b; c; d] =>
      a' ← octet a; b' ← octet b; c' ← octet c; d' ← octet d;
      Some (((a' * 256 + b') * 256 + c') * 256 + d')%Z
  | _ => None
  end.

(** Modelled from the spec: [IP(data)], construction from a CIDR string
    ([a.b.c.d/len], the length defaulting to 32); anything else, [None]
    included, is refused with an exception. *)
Definition IP_init (data : option string) : result IP :=
  match data with
  | None => Raise TypeError
  | Some s =>
      match split_on "/" s with
      | [a] =>
          match dotted_quad a with
          | Some n => Ok (mkIP n 32)
          | None => Raise ValueError
          end
      | [a; l] =>
          match dotted_quad a, decimal l with
          | Some n, Some len =>
              if (len <=? 32)%Z then Ok (mkIP n len) else Raise ValueError
          | _, _ => Raise ValueError
          end
      | _ => Raise ValueError
      end
  end.

(** Modelled from the spec: [IPSet(ips)] and [IPSet()], and union, written
    [a + b] (and [a += b]) in the source. *)
Abbreviation IPSet := (list IP) (only parsing).

Definition IPSet_init (ips : list IP) : IPSet := ips.

Definition IPSet_add (a b : IPSet) : IPSet := a ++ b.

(** Membership of a 32-bit address in a prefix and in a set. *)
Definition IP_contains (p : IP) (a : Z) : bool :=
  (Z.shiftr a (32 - prefixlen p) =? Z.shiftr (net p) (32 - prefixlen p))%Z.

Definition IPSet_contains (s : IPSet) (a : Z) : bool :=
  existsb (fun p => IP_contains p a) s.

Definition address (a : Z) : Prop := (0 <= a < 2 ^ 32)%Z.

(** Modelled from the spec: equality of IP sets by value: the same
    addresses are covered. *)
Definition IPSet_eq (s t : IPSet) : Prop :=
  forall a, address a -> IPSet_contains s a = IPSet_contains t a.

(** The unrestricted address space. *)
Definition IPSet_full (s : IPSet) : Prop :=
  forall a, address a -> IPSet_contains s a = true.

End ip.

(** ** The builtin [int] *)

(** [int] belongs to the interpreter, not to the repository, and what it
    accepts is not the same from one version to the next (digit separators,
    digits and white space beyond ASCII, a bound on the number of digits).
    The parser is therefore modelled over any [int], taken as it is: a
    function from a text, or [None], to an integer or an exception. *)
Class Builtins : Type := { py_int : option string -> result Z }.

(** One [int], for the examples: it reads the ASCII decimal numerals, an
    optional sign and digits between optional white space, which every
    version of the builtin reads the same way. *)
Definition is_space (c : ascii) : bool :=
  match N_of_ascii c with
  | 9 | 10 | 11 | 12 | 13 | 32 => true
  | _ => false
  end%N.

Fixpoint lstrip (s : string) : string :=
  match s with
  | String c s' => if is_space c then lstrip s' else s
  | EmptyString => EmptyString
  end.

Fixpoint rstrip (s : string) : string :=
  match s with
  | EmptyString => EmptyString
  | String c s' =>
      match rstrip s' with
      | EmptyString => if is_space c then EmptyString else String c EmptyString
      | r => String c r
      end
  end.

Definition strip (s : string) : string := rstrip (lstrip s).

Definition split_sign (body : string) : bool * string :=
  match body with
  | String "-" r => (true, r)
  | String "+" r => (false, r)
  | _ => (false, body)
  end.

Definition decimal_int (x : option string) : result Z :=
  match x with
  | None => Raise TypeError
  | Some s =>
      let '(neg, digits) := split_sign (strip s) in
      match decimal digits with
      | Some n => Ok (if neg then - n else n)%Z
      | None => Raise ValueError
      end
  end.

#[global] Instance decimal_builtins : Builtins := {| py_int := decimal_int |}.

(** ** Policies *)

Module Policy.

Record t : Type := mk {
  name : option string;
  from_zone : option string;
  to_zone : option string;
  enabled : bool;
  sequence : Z;
  source_addresses : list (option string);
  destination_addresses : list (option string);
  applications : list (option string);
  action : option string
}.

Definition _parse_address (elt : Element) : result (option string) :=
  text_of (find elt [Child "address-name"]).

Definition _parse_application (elt : Element) : result (option string) :=
  text_of (find elt [Child "application-name"]).

Definition _from_xml {Py : Builtins} (from_zone to_zone : option string)
    (pie : Element) : result t :=
  name ← text_of (find pie [Child "policy-name"]);
  state ← text_of (find pie [Child "policy-state"]);
  seq_text ← text_of (find pie [Child "policy-sequence-number"]);
  sequence ← py_int seq_text;
  source_addresses ←
    list_comp _parse_address (findall pie [Child "source-addresses"; Star]);
  destination_addresses ←
    list_comp _parse_address (findall pie [Child "destination-addresses"; Star]);
  applications ←
    list_comp _parse_application
              (findall pie [Child "applications"; Child "application"]);
  action ← text_of (find pie [Child "policy-action"; Child "action-type"]);
  Ok (mk name from_zone to_zone (bool_decide (state = Some "enabled"))
         sequence source_addresses destination_addresses applications action).

End Policy.

(** ** Routes *)

(** The namespace of the routing document, kept in one constant. *)
Definition ns : string := "{http://xml.juniper.net/junos/12.1X44/junos-routing}".

Definition qn (local : string) : string := ns ++ local.

Module Route.

(** [interface] and [is_local] are [None] until an active entry sets them;
    [destination] is set before anything else. *)
Record t : Type := mk {
  destination : ip.IP;
  interface : option string;
  is_local : option bool
}.

Definition current_active (entry : Element) : bool :=
  truthy_list (findall entry [Descendant (qn "current-active")]).

(** The body of the loop over the [rt-entry] children: the state is the pair
    of the attributes [interface] and [is_local] of the route being built. *)
Definition entry_body (st : option string * option bool) (entry : Element)
  : option string * option bool :=
  if current_active entry then
    let vias := findall entry [Descendant (qn "via")] in
    let itf := match vias with
               | v :: _ => text v
               | [] => fst st
               end in
    (itf, Some (negb (truthy_list (findall entry [Descendant (qn "to")]))))
  else st.

(** [Route._from_xml]: [Ok None] is the implicit [return None]. *)
Definition _from_xml (rt_elt : Element) : result (option t) :=
  d ← text_of (find rt_elt [Child (qn "rt-destination")]);
  dest ← ip.IP_init d;
  let st := fold_left entry_body (findall rt_elt [Child (qn "rt-entry")])
                      (None, None) in
  if truthy_str (fst st)
  then Ok (Some (mk dest (fst st) (snd st)))
  else Ok None.

End Route.

(** ** Zones *)

Module Zone.

Record t : Type := mk {
  name : option string;
  interfaces : list (option string);
  addresses : gmap (option string) ip.IPSet
}.

(** [Zone.__init__]: no interfaces and the address book holding [any] alone.
    ([name] is assigned first thing by [_from_xml].) *)
Definition __init__ : result t :=
  any ← ip.IP_init (Some "0.0.0.0/0");
  Ok (mk None [] {[ Some "any" := ip.IPSet_init [any] ]}).

(** The inner loop of an address-set: [ip += zone.addresses[setname]]. *)
Definition member_body (addresses : gmap (option string) ip.IPSet)
    (ip : ip.IPSet) (setaddr : Element) : result ip.IPSet :=
  let setname := findtext setaddr [Child "name"] in
  match addresses !! setname with
  | Some s => Ok (ip.IPSet_add ip s)
  | None => Raise KeyError
  end.

(** The value an address-book child resolves to, in the current mapping. *)
Definition resolve (addresses : gmap (option string) ip.IPSet)
    (addr : Element) : result ip.IPSet :=
  if String.eqb (tag addr) "address" then
    p ← ip.IP_init (findtext addr [Child "ip-prefix"]);
    Ok (ip.IPSet_init [p])
  else
    for_each (member_body addresses) (findall addr [Child "address"])
             (ip.IPSet_init []).

(** The body of the loop over the children of the address book. *)
Definition address_body (addresses : gmap (option string) ip.IPSet)
    (addr : Element) : result (gmap (option string) ip.IPSet) :=
  let name := findtext addr [Child "name"] in
  ip ← resolve addresses addr;
  Ok (<[name := ip]> addresses).

Definition _from_xml (sze : Element) : result t :=
  zone ← __init__;
  name ← text_of (find sze [Child "name"]);
  let interfaces :=
    interfaces zone
      ++ List.map text (findall sze [Descendant "interfaces"; Child "name"]) in
  book ← match find sze [Child "address-book"] with
         | Some b => Ok b
         | None => Raise TypeError
         end;
  addresses ← for_each address_body (children book) (addresses zone);
  Ok (mk name interfaces addresses).

End Zone.

(** ** The firewall *)

Module Firewall.

Record t : Type := mk {
  policies : list Policy.t;
  routes : list Route.t;
  zones : list Zone.t
}.

Definition policy_body {Py : Builtins} (from_zone to_zone : option string)
    (policies : list Policy.t) (pol_elt : Element) : result (list Policy.t) :=
  policy ← Policy._from_xml from_zone to_zone pol_elt;
  Ok (policies ++ [policy]).

Definition context_body {Py : Builtins} (policies : list Policy.t)
    (elt : Element) : result (list Policy.t) :=
  from_zone ←
    text_of (find elt [Child "context-information"; Child "source-zone-name"]);
  to_zone ←
    text_of (find elt [Child "context-information";
                       Child "destination-zone-name"]);
  for_each (policy_body from_zone to_zone)
           (findall elt [Child "policies"; Child "policy-information"])
           policies.

(** [Firewall._parse_policies], on the root element of the parsed document. *)
Definition _parse_policies {Py : Builtins} (sspe : Element)
  : result (list Policy.t) :=
  for_each context_body (findall sspe [Descendant "security-context"]) [].

(** The loop over the [rt] children of the selected table. *)
Definition route_body (routes : list Route.t) (rt_elt : Element)
  : result (list Route.t) :=
  route ← Route._from_xml rt_elt;
  match route with
  | Some r => Ok (routes ++ [r])
  | None => Ok routes
  end.

Definition inet0 (table : Element) : bool :=
  bool_decide (findtext table [Child (qn "table-name")] = Some "inet.0").

(** The routes of one table: the loop over its [rt] children. *)
Definition table_routes (table : Element) : result (list Route.t) :=
  for_each route_body (findall table [Child (qn "rt")]) [].

(** The loop over the route tables: the first table named [inet.0] decides
    the result, and [return []] is reached when there is none. *)
Fixpoint route_tables (tables : list Element) : result (list Route.t) :=
  match tables with
  | [] => Ok []
  | table :: rest =>
      if inet0 table then table_routes table else route_tables rest
  end.

Definition _parse_routes (sre : Element) : result (list Route.t) :=
  route_tables (findall sre [Descendant (qn "route-table")]).

Definition zone_body (zones : list Zone.t) (sz : Element)
  : result (list Zone.t) :=
  zone ← Zone._from_xml sz;
  Ok (zones ++ [zone]).

Definition _parse_zones (scsze : Element) : result (list Zone.t) :=
  for_each zone_body (findall scsze [Descendant "security-zone"]) [].

(** [Firewall.__init__], on the roots of the three documents. *)
Definition __init__ {Py : Builtins} (security_policies_xml route_xml
                     configuration_security_zones_xml : Element) : result t :=
  policies ← _parse_policies security_policies_xml;
  routes ← _parse_routes route_xml;
  zones ← _parse_zones configuration_security_zones_xml;
  Ok (mk policies routes zones).

End Firewall.

(** ** Sample documents *)

Module samples.

Definition leaf (t s : string) : Element := Elem t (Some s) [].

(** A destination with two [rt-entry] children, the second one active, with
    a next hop made of a [to] and a [via]. *)
Definition rt_two_entries : Element :=
  Elem (qn "rt") None
    [ leaf (qn "rt-destination") "10.1.1.0/24";
      Elem (qn "rt-entry") None
        [ leaf (qn "protocol-name") "OSPF";
          Elem (qn "nh") None
            [ leaf (qn "to") "10.9.9.9"; leaf (qn "via") "ge-0/0/0" ] ];
      Elem (qn "rt-entry") None
        [ Elem (qn "current-active") None [];
          leaf (qn "protocol-name") "Static";
          Elem (qn "nh") None
            [ leaf (qn "to") "10.2.2.2"; leaf (qn "via") "ge-0/0/1" ] ] ].

(** The same destination when the active entry has a [via] and no [to]. *)
Definition rt_two_entries_direct : Element :=
  Elem (qn "rt") None
    [ leaf (qn "rt-destination") "10.1.1.0/24";
      Elem (qn "rt-entry") None
        [ leaf (qn "protocol-name") "OSPF";
          Elem (qn "nh") None
            [ leaf (qn "to") "10.9.9.9"; leaf (qn "via") "ge-0/0/0" ] ];
      Elem (qn "rt-entry") None
        [ Elem (qn "current-active") None [];
          leaf (qn "protocol-name") "Direct";
          Elem (qn "nh") None [ leaf (qn "via") "ge-0/0/1" ] ] ].

(** A discard route: active, with neither [via] nor [to]. *)
Definition rt_discard : Element :=
  Elem (qn "rt") None
    [ leaf (qn "rt-destination") "192.168.0.0/16";
      Elem (qn "rt-entry") None
        [ Elem (qn "current-active") None [];
          leaf (qn "nh-type") "Discard" ] ].

(** An [rt] without destination: [Route._from_xml] raises on it. *)
Definition rt_broken : Element :=
  Elem (qn "rt") None [ Elem (qn "rt-entry") None [] ].

(** Two active entries: the first has a [via] and no [to], the second a
    [to] and no [via]. *)
Definition rt_two_active : Element :=
  Elem (qn "rt") None
    [ leaf (qn "rt-destination") "10.3.0.0/16";
      Elem (qn "rt-entry") None
        [ Elem (qn "current-active") None [];
          Elem (qn "nh") None [ leaf (qn "via") "ge-0/0/0" ] ];
      Elem (qn "rt-entry") None
        [ Elem (qn "current-active") None [];
          Elem (qn "nh") None [ leaf (qn "to") "10.2.2.2" ] ] ].

Definition table (name : string) (rts : list Element) : Element :=
  Elem (qn "route-table") None (leaf (qn "table-name") name :: rts).

Definition table_inet6 : Element := table "inet6.0" [rt_broken].
Definition table_inet0 : Element := table "inet.0" [rt_two_entries; rt_discard].
Definition table_inet0_again : Element := table "inet.0" [rt_broken].

Definition routes_doc (tables : list Element) : Element :=
  Elem "rpc-reply" None [ Elem (qn "route-information") None tables ].

(** A policy entry with one source, one destination and one application. *)
Definition policy_information (name state seq action : string) : Element :=
  Elem "policy-information" None
    [ leaf "policy-name" name;
      leaf "policy-state" state;
      leaf "policy-sequence-number" seq;
      Elem "source-addresses" None
        [ Elem "source-address" None [ leaf "address-name" "any" ] ];
      Elem "destination-addresses" None
        [ Elem "destination-address" None [ leaf "address-name" "web" ] ];
      Elem "applications" None
        [ Elem "application" None [ leaf "application-name" "junos-http" ] ];
      Elem "policy-action" None [ leaf "action-type" action ] ].

Definition security_context (src dst : string) (entries : list Element)
  : Element :=
  Elem "security-context" None
    [ Elem "context-information" None
        [ leaf "source-zone-name" src; leaf "destination-zone-name" dst ];
      Elem "policies" None entries ].

Definition policies_doc (contexts : list Element) : Element :=
  Elem "rpc-reply" None [ Elem "security-policies" None contexts ].

(** Two contexts; in the first one the sequence numbers go down. *)
Definition policies_out_of_order : Element :=
  policies_doc
    [ security_context "trust" "untrust"
        [ policy_information "second" "enabled" "2" "permit";
          policy_information "first" "disabled" "1" "deny" ];
      security_context "untrust" "trust"
        [ policy_information "inbound" "enabled" "1" "deny" ] ].

(** Two entries of one context with the same sequence number. *)
Definition policies_colliding : Element :=
  policies_doc
    [ security_context "trust" "untrust"
        [ policy_information "web" "enabled" "1" "permit";
          policy_information "mail" "enabled" "1" "deny" ] ].

(** An entry whose sequence number does not read as an integer, after a
    well-formed one. *)
Definition policies_bad_sequence : Element :=
  policies_doc
    [ security_context "trust" "untrust"
        [ policy_information "web" "enabled" "1" "permit";
          policy_information "mail" "enabled" "one" "deny" ] ].

Definition address (name prefix : string) : Element :=
  Elem "address" None [ leaf "name" name; leaf "ip-prefix" prefix ].

Definition address_set (name : string) (members : list string) : Element :=
  Elem "address-set" None
    (leaf "name" name
       :: List.map (fun m => Elem "address" None [ leaf "name" m ]) members).

Definition security_zone (name : string) (book : list Element) : Element :=
  Elem "security-zone" None
    [ leaf "name" name;
      Elem "address-book" None book;
      Elem "interfaces" None [ leaf "name" "reth0.0" ] ].

Definition zones_doc (zones : list Element) : Element :=
  Elem "configuration" None
    [ Elem "security" None [ Elem "zones" None zones ] ].

(** An address [A], then a set [S] of [A] and [any]. *)
Definition zone_set_with_any : Element :=
  security_zone "trust"
    [ address "A" "10.0.0.0/24"; address_set "S" ["A"; "any"] ].

(** An address book that defines an address called [any], then a set of it. *)
Definition zone_redefines_any : Element :=
  security_zone "dmz"
    [ address "any" "10.0.0.0/24"; address_set "S" ["any"] ].

(** The same name twice. *)
Definition zone_same_name_twice : Element :=
  security_zone "trust"
    [ address "A" "10.0.0.0/24"; address "A" "10.1.0.0/16" ].

(** An address book without entries. *)
Definition zone_empty_book : Element := security_zone "untrust" [].

(** A set that comes before the address it names. *)
Definition zone_forward_reference : Element :=
  security_zone "trust"
    [ address_set "S" ["A"]; address "A" "10.0.0.0/24" ].

(** An address book with a child that is neither an address nor a set. *)
Definition zone_with_description : Element :=
  security_zone "trust"
    [ leaf "description" "servers"; address "A" "10.0.0.0/24" ].

(** A zone without [address-book] element. *)
Definition zone_no_book : Element :=
  Elem "security-zone" None
    [ leaf "name" "mgmt"; Elem "interfaces" None [ leaf "name" "fxp0.0" ] ].

End samples.

(** ** Vocabulary of the properties *)

(** The policy entries of a document, each with its context, in the order of
    the document: contexts in document order and, within a context, its
    entries in document order. *)
Definition policy_entries (sspe : Element) : list (Element * Element) :=
  flat_map
    (fun ctx =>
       List.map (pair ctx)
                (findall ctx [Child "policies"; Child "policy-information"]))
    (findall sspe [Descendant "security-context"]).

(** The policy an entry stands for, with the zones of its context. *)
Definition entry_policy {Py : Builtins} (e : Element * Element)
  : result Policy.t :=
  let '(ctx, pie) := e in
  from_zone ←
    text_of (find ctx [Child "context-information"; Child "source-zone-name"]);
  to_zone ←
    text_of (find ctx [Child "context-information";
                       Child "destination-zone-name"]);
  Policy._from_xml from_zone to_zone pie.

(** The policies of one context. *)
Definition context_policies {Py : Builtins} (ctx : Element)
  : result (list Policy.t) :=
  from_zone ←
    text_of (find ctx [Child "context-information"; Child "source-zone-name"]);
  to_zone ←
    text_of (find ctx [Child "context-information";
                       Child "destination-zone-name"]);
  list_comp (Policy._from_xml from_zone to_zone)
            (findall ctx [Child "policies"; Child "policy-information"]).

(** The zone pair and the sequence number, as the document gives them and as
    a policy carries them. *)
Definition entry_key {Py : Builtins} (e : Element * Element)
  : result (option string * option string * Z) :=
  let '(ctx, pie) := e in
  from_zone ←
    text_of (find ctx [Child "context-information"; Child "source-zone-name"]);
  to_zone ←
    text_of (find ctx [Child "context-information";
                       Child "destination-zone-name"]);
  seq_text ← text_of (find pie [Child "policy-sequence-number"]);
  sequence ← py_int seq_text;
  Ok (from_zone, to_zone, sequence).

Definition policy_key (p : Policy.t) : option string * option string * Z :=
  (Policy.from_zone p, Policy.to_zone p, Policy.sequence p).

(** The address book a zone starts from: [any] alone, as 0.0.0.0/0. *)
Definition builtin_addresses : gmap (option string) ip.IPSet :=
  {[ Some "any" := ip.IPSet_init [ip.mkIP 0 0] ]}.

(** The name under which an address-book child is stored. *)
Definition entry_name (addr : Element) : option string :=
  findtext addr [Child "name"].

(** An entry that [Policy._from_xml] can read: the four fields are there,
    [int] accepts the text of the sequence number, and every listed address
    and application has its name element. *)
Definition policy_entry_ok {Py : Builtins} (pie : Element) : Prop :=
  is_Some (find pie [Child "policy-name"]) /\
  is_Some (find pie [Child "policy-state"]) /\
  (exists elt, find pie [Child "policy-sequence-number"] = Some elt /\
               is_ok (py_int (text elt)) = true) /\
  Forall (fun e => is_Some (find e [Child "address-name"]))
         (findall pie [Child "source-addresses"; Star]) /\
  Forall (fun e => is_Some (find e [Child "address-name"]))
         (findall pie [Child "destination-addresses"; Star]) /\
  Forall (fun e => is_Some (find e [Child "application-name"]))
         (findall pie [Child "applications"; Child "application"]) /\
  is_Some (find pie [Child "policy-action"; Child "action-type"]).

(** A context that [_parse_policies] can read: both zone names are there and
    every entry can be read. *)
Definition context_ok {Py : Builtins} (ctx : Element) : Prop :=
  is_Some (find ctx [Child "context-information"; Child "source-zone-name"]) /\
  is_Some (find ctx [Child "context-information";
                     Child "destination-zone-name"]) /\
  Forall policy_entry_ok
         (findall ctx [Child "policies"; Child "policy-information"]).

(** The table whose routes [_parse_routes] returns: the first
    [route-table] of the document whose [table-name] is [inet.0]. *)
Definition selected_table (sre table : Element) : Prop :=
  exists pre post,
    findall sre [Descendant (qn "route-table")] = pre ++ table :: post /\
    Forall (fun t => findtext t [Child (qn "table-name")] <> Some "inet.0")
           pre /\
    findtext table [Child (qn "table-name")] = Some "inet.0".

(** The names of a list of address-book children, as a set. *)
Definition entry_names (l : list Element) : gset (option string) :=
  list_to_set (List.map entry_name l).

(** An address-book child that can be resolved when the names in [known]
    are bound: the prefix of an address reads as a network; the members of a
    set are all known. *)
Definition entry_ok (known : gset (option string)) (addr : Element) : Prop :=
  if String.eqb (tag addr) "address"
  then is_ok (ip.IP_init (findtext addr [Child "ip-prefix"])) = true
  else Forall (fun setaddr => entry_name setaddr ∈ known)
              (findall addr [Child "address"]).

(** * Properties *)

(** ** Documents *)

(** Document order: an element comes before its children, and the subtree
    of a child before the next child. *)
Lemma iter_unfold (e : Element) : iter e = e :: flat_map iter (children e).
Proof.
  destruct e as [t x cs]. reflexivity.
Qed.

Lemma findall_child (e : Element) (t : string) :
  findall e [Child t] = List.filter (has_tag t) (children e).
Proof. unfold findall. simpl. apply app_nil_r. Qed.

Lemma findall_descendant (e : Element) (t : string) :
  findall e [Descendant t]
  = List.filter (has_tag t) (flat_map iter (children e)).
Proof.
  unfold findall. simpl. rewrite app_nil_r. by rewrite iter_unfold.
Qed.

(** ** The error monad and loops *)

Lemma raises_Raise {A} (e : PyError) : raises (@Raise A e).
Proof. by exists e. Qed.

Lemma raises_not_Ok {A} (m : result A) (a : A) : raises m -> m <> Ok a.
Proof. intros [e ->]. discriminate. Qed.

Lemma raises_bind {A B} (m : result A) (k : A -> result B) :
  raises m -> raises (m ≫= k).
Proof. intros [e ->]. by exists e. Qed.

Lemma raises_bind_cont {A B} (m : result A) (k : A -> result B) :
  (forall a, raises (k a)) -> raises (m ≫= k).
Proof. intros Hk. destruct m as [a|e]; [apply Hk | by exists e]. Qed.

Lemma bind_Ok_inv {A B} (m : result A) (k : A -> result B) (b : B) :
  m ≫= k = Ok b -> exists a, m = Ok a /\ k a = Ok b.
Proof. destruct m as [a|e]; [by exists a | discriminate]. Qed.

Lemma for_each_app {A S} (body : S -> A -> result S) (l1 l2 : list A) (s : S) :
  for_each body (l1 ++ l2) s = for_each body l1 s ≫= for_each body l2.
Proof.
  revert s. induction l1 as [|x l1 IH]; intros s; [done|].
  simpl. destruct (body s x) as [s'|e]; [apply IH | done].
Qed.

(** An item on which the body raises in every state ends the loop with an
    exception, wherever it stands in the list. *)
Lemma for_each_raises {A S} (body : S -> A -> result S) (l : list A) (x : A) :
  x ∈ l -> (forall s, raises (body s x)) -> forall s, raises (for_each body l s).
Proof.
  intros Hin Hx. induction l as [|y l IH]; intros s.
  - by apply elem_of_nil in Hin.
  - simpl. apply elem_of_cons in Hin as [<- | Hin].
    + by apply raises_bind.
    + apply raises_bind_cont. intros s'. by apply IH.
Qed.

(** A loop that appends to a list is a comprehension. *)
Lemma for_each_append {A B} (f : A -> result (list B)) (l : list A)
    (acc : list B) :
  for_each (fun acc x => ys ← f x; Ok (acc ++ ys)) l acc
  = yss ← list_comp f l; Ok (acc ++ concat yss).
Proof.
  revert acc. induction l as [|x l IH]; intros acc.
  - simpl. by rewrite app_nil_r.
  - simpl. destruct (f x) as [ys|e]; [|done]. simpl. rewrite IH.
    destruct (list_comp f l) as [yss|e]; [|done]. simpl.
    by rewrite app_assoc.
Qed.

Lemma list_comp_Forall2 {A B} (f : A -> result B) (l : list A) (ys : list B) :
  list_comp f l = Ok ys <-> Forall2 (fun x y => f x = Ok y) l ys.
Proof.
  revert ys. induction l as [|x l IH]; intros ys; simpl.
  - split.
    + intros [= <-]. constructor.
    + intros H. by inversion H.
  - split.
    + intros H. apply bind_Ok_inv in H as (y & Hy & H).
      apply bind_Ok_inv in H as (ys' & Hys & [= <-]).
      constructor; [done | by apply IH].
    + intros H. inversion H as [|? y ? ys' Hy Hys]; subst.
      rewrite Hy. simpl. apply IH in Hys. by rewrite Hys.
Qed.

(** ** Routes *)

Section routes.

Implicit Types (entry rt_elt table : Element) (r : Route.t).

Lemma entry_body_inactive st entry :
  Route.current_active entry = false -> Route.entry_body st entry = st.
Proof. unfold Route.entry_body. by intros ->. Qed.

(** Only the entries marked [current-active] change the route being built. *)
Lemma fold_entry_body_active (l : list Element) st :
  fold_left Route.entry_body l st
  = fold_left Route.entry_body (List.filter Route.current_active l) st.
Proof.
  revert st. induction l as [|e l IH]; intros st; [done|].
  simpl. destruct (Route.current_active e) eqn:Ha; simpl.
  - apply IH.
  - rewrite entry_body_inactive by done. apply IH.
Qed.

(** Without a [via] under any active entry the interface stays unset. *)
Lemma fold_entry_body_no_via (l : list Element) st :
  Forall (fun entry => Route.current_active entry = true ->
                       findall entry [Descendant (qn "via")] = []) l ->
  fst (fold_left Route.entry_body l st) = fst st.
Proof.
  intros Hl. revert st. induction Hl as [|e l He _ IH]; intros st; [done|].
  simpl. rewrite IH. unfold Route.entry_body.
  destruct (Route.current_active e); [|done].
  by rewrite He.
Qed.

Lemma Route_from_xml_Some rt_elt r :
  Route._from_xml rt_elt = Ok (Some r) ->
  let st := fold_left Route.entry_body
                      (findall rt_elt [Child (qn "rt-entry")]) (None, None) in
  truthy_str (fst st) = true /\
  Route.interface r = fst st /\ Route.is_local r = snd st /\
  exists d, text_of (find rt_elt [Child (qn "rt-destination")]) = Ok d /\
            ip.IP_init d = Ok (Route.destination r).
Proof.
  unfold Route._from_xml. intros H.
  apply bind_Ok_inv in H as (d & Hd & H).
  apply bind_Ok_inv in H as (dest & Hdest & H).
  simpl. destruct (truthy_str _) eqn:Ht; [|discriminate].
  injection H as <-. simpl. eauto 10.
Qed.

Lemma truthy_str_nonempty (s : option string) :
  truthy_str s = true <-> exists x, s = Some x /\ x <> "".
Proof.
  destruct s as [[|c s]|]; simpl; split; try discriminate; try (intros; reflexivity).
  - intros (x & [= <-] & Hx). done.
  - intros _. eexists. split; [reflexivity | discriminate].
  - intros (x & [=] & _).
Qed.

(** The routes collected by the loop over the [rt] elements are those for
    which [Route._from_xml] returned a route, in the order of the elements. *)
Lemma for_each_route_body (l : list Element) (acc : list Route.t) :
  for_each Firewall.route_body l acc
  = os ← list_comp Route._from_xml l; Ok (acc ++ omap id os).
Proof.
  unfold Firewall.route_body.
  revert acc. induction l as [|x l IH]; intros acc; simpl.
  - by rewrite app_nil_r.
  - destruct (Route._from_xml x) as [[r|]|e]; simpl; [| |done].
    + rewrite IH. destruct (list_comp _ l); simpl; [|done].
      by rewrite <- app_assoc.
    + rewrite IH. by destruct (list_comp _ l).
Qed.

Lemma table_routes_elem table (rs : list Route.t) r :
  Firewall.table_routes table = Ok rs -> r ∈ rs ->
  exists rt_elt, rt_elt ∈ findall table [Child (qn "rt")] /\
                 Route._from_xml rt_elt = Ok (Some r).
Proof.
  unfold Firewall.table_routes. rewrite for_each_route_body. intros H Hr.
  apply bind_Ok_inv in H as (os & Hos & [= <-]). simpl in Hr.
  apply list_comp_Forall2 in Hos.
  apply list_elem_of_omap in Hr as (o & Ho & Hid). simpl in Hid. subst o.
  apply list_elem_of_lookup in Ho as [i Hi].
  destruct (Forall2_lookup_r _ _ _ i (Some r) Hos Hi) as (rt & Hrt & Hx).
  exists rt. split; [|done]. by eapply list_elem_of_lookup_2.
Qed.

Lemma route_tables_skip (pre rest : list Element) :
  Forall (fun table => Firewall.inet0 table = false) pre ->
  Firewall.route_tables (pre ++ rest) = Firewall.route_tables rest.
Proof.
  induction 1 as [|t pre Ht _ IH]; [done|]. simpl. by rewrite Ht.
Qed.

Lemma inet0_false table :
  findtext table [Child (qn "table-name")] <> Some "inet.0" ->
  Firewall.inet0 table = false.
Proof. intros H. unfold Firewall.inet0. by apply bool_decide_eq_false. Qed.

Lemma route_tables_elem (tables : list Element) (rs : list Route.t) r :
  Firewall.route_tables tables = Ok rs -> r ∈ rs ->
  exists table, table ∈ tables /\ Firewall.inet0 table = true /\
                Firewall.table_routes table = Ok rs.
Proof.
  induction tables as [|t tables IH]; simpl.
  - intros [= <-] Hr. by apply elem_of_nil in Hr.
  - destruct (Firewall.inet0 t) eqn:Ht.
    + intros H _. exists t. split; [left | done].
    + intros H Hr. destruct (IH H Hr) as (t' & Hin & H').
      exists t'. split; [by right | done].
Qed.

End routes.

(** C2: the routes are those of the first [route-table] whose [table-name]
    is [inet.0]: the tables before it and after it play no part, and every
    route returned comes from an [rt] child of that table; without a table
    named [inet.0] the result is the empty list, and no exception. *)
Theorem parse_routes_first_inet0 (sre : Element) :
  (forall pre table post,
     findall sre [Descendant (qn "route-table")] = pre ++ table :: post ->
     Forall (fun t => findtext t [Child (qn "table-name")] <> Some "inet.0")
            pre ->
     findtext table [Child (qn "table-name")] = Some "inet.0" ->
     Firewall._parse_routes sre = Firewall.table_routes table /\
     forall rs r,
       Firewall._parse_routes sre = Ok rs -> r ∈ rs ->
       exists rt_elt, rt_elt ∈ findall table [Child (qn "rt")] /\
                      Route._from_xml rt_elt = Ok (Some r))
  /\
  (Forall (fun t => findtext t [Child (qn "table-name")] <> Some "inet.0")
          (findall sre [Descendant (qn "route-table")]) ->
   Firewall._parse_routes sre = Ok []).
Proof.
  unfold Firewall._parse_routes. split.
  - intros pre table post -> Hpre Htable.
    assert (Firewall.route_tables (pre ++ table :: post)
            = Firewall.table_routes table) as Heq.
    { rewrite route_tables_skip.
      - simpl. unfold Firewall.inet0. by rewrite bool_decide_eq_true_2.
      - eapply Forall_impl; [exact Hpre|]. intros t. apply inet0_false. }
    split; [exact Heq|]. intros rs r Hrs Hr. rewrite Heq in Hrs.
    by eapply table_routes_elem.
  - intros Hall.
    rewrite <- (app_nil_r (findall sre _)). rewrite route_tables_skip; [done|].
    eapply Forall_impl; [exact Hall|]. intros t. apply inet0_false.
Qed.

Lemma parse_routes_first_inet0_witness :
  Firewall._parse_routes
    (samples.routes_doc
       [samples.table_inet6; samples.table_inet0; samples.table_inet0_again])
  = Firewall.table_routes samples.table_inet0
  /\ Firewall._parse_routes (samples.routes_doc [samples.table_inet6]) = Ok [].
Proof.
  split.
  - apply (proj1 (parse_routes_first_inet0 _)
             [samples.table_inet6] samples.table_inet0
             [samples.table_inet0_again]).
    + vm_compute. reflexivity.
    + repeat constructor. vm_compute. discriminate.
    + vm_compute. reflexivity.
  - apply (proj2 (parse_routes_first_inet0 _)).
    repeat constructor. vm_compute. discriminate.
Defined.

(** C3: every route returned by the extractor has an interface that is a
    non-empty string, and a destination none of whose active entries has a
    [via] beneath it gives no route: [Route._from_xml] returns [None] for it
    (as soon as its destination reads as a network). *)
Theorem route_interface_nonempty :
  (forall sre rs r,
     Firewall._parse_routes sre = Ok rs -> r ∈ rs ->
     exists s, Route.interface r = Some s /\ s <> "")
  /\
  (forall rt_elt,
     Forall (fun entry => Route.current_active entry = true ->
                          findall entry [Descendant (qn "via")] = [])
            (findall rt_elt [Child (qn "rt-entry")]) ->
     (forall r, Route._from_xml rt_elt <> Ok (Some r)) /\
     (forall d dest,
        text_of (find rt_elt [Child (qn "rt-destination")]) = Ok d ->
        ip.IP_init d = Ok dest ->
        Route._from_xml rt_elt = Ok None /\
        forall routes, Firewall.route_body routes rt_elt = Ok routes)).
Proof.
  split.
  - intros sre rs r Hrs Hr. unfold Firewall._parse_routes in Hrs.
    destruct (route_tables_elem _ _ _ Hrs Hr) as (table & _ & _ & Htable).
    destruct (table_routes_elem _ _ _ Htable Hr) as (rt_elt & _ & Hrt).
    apply Route_from_xml_Some in Hrt as (Ht & -> & _).
    by apply truthy_str_nonempty.
  - intros rt_elt Hno.
    pose proof (fold_entry_body_no_via _ (None, None) Hno) as Hst.
    simpl in Hst. split.
    + intros r Hr. apply Route_from_xml_Some in Hr as (Ht & _).
      rewrite Hst in Ht. discriminate.
    + intros d dest Hd Hdest.
      assert (Route._from_xml rt_elt = Ok None) as Hnone.
      { unfold Route._from_xml. rewrite Hd. simpl. rewrite Hdest. simpl.
        by rewrite Hst. }
      split; [done|]. intros routes. unfold Firewall.route_body.
      by rewrite Hnone.
Qed.

Lemma route_interface_nonempty_witness :
  (exists s,
     Route.interface (Route.mk (ip.mkIP 167837952 24) (Some "ge-0/0/1")
                               (Some false)) = Some s /\ s <> "")
  /\ Route._from_xml samples.rt_discard = Ok None.
Proof.
  split.
  - apply (proj1 route_interface_nonempty
             (samples.routes_doc
                [samples.table_inet6; samples.table_inet0;
                 samples.table_inet0_again])
             [Route.mk (ip.mkIP 167837952 24) (Some "ge-0/0/1") (Some false)]).
    + vm_compute. reflexivity.
    + left.
  - apply (proj2 (proj2 route_interface_nonempty samples.rt_discard
                    ltac:(repeat constructor; vm_compute; discriminate))
             (Some "192.168.0.0/16")
             (ip.mkIP 3232235520 16)
             ltac:(vm_compute; reflexivity) ltac:(vm_compute; reflexivity)).
Defined.

(** When several entries are active, the last of them decides [is_local],
    and the last of them that has a [via] gives the interface. *)
Lemma Route_from_xml_last_active rt_elt (actives : list Element) entry r :
  List.filter Route.current_active (findall rt_elt [Child (qn "rt-entry")])
  = actives ++ [entry] ->
  Route._from_xml rt_elt = Ok (Some r) ->
  Route.is_local r
  = Some (negb (truthy_list (findall entry [Descendant (qn "to")]))).
Proof.
  intros Hact Hr. apply Route_from_xml_Some in Hr as (_ & _ & -> & _).
  rewrite fold_entry_body_active, Hact, fold_left_app. simpl.
  assert (Route.current_active entry = true) as Ha.
  { assert (In entry (List.filter Route.current_active
                        (findall rt_elt [Child (qn "rt-entry")]))) as Hin.
    { rewrite Hact. apply in_or_app. right. by left. }
    by apply filter_In in Hin as [_ ?]. }
  unfold Route.entry_body. by rewrite Ha.
Qed.

(** C4 (the scenario taken as it is written): the destination has two
    [rt-entry] children, only the second is active and its [via] is
    [ge-0/0/1]; as that entry has no [to], the route is local. *)
Lemma route_two_entries_direct_is_local :
  List.map Route.current_active
           (findall samples.rt_two_entries_direct [Child (qn "rt-entry")])
  = [false; true]
  /\ Firewall._parse_routes
       (samples.routes_doc
          [samples.table "inet.0" [samples.rt_two_entries_direct]])
     = Ok [Route.mk (ip.mkIP 167837952 24) (Some "ge-0/0/1") (Some true)]
  /\ Firewall._parse_routes
       (samples.routes_doc
          [samples.table "inet.0" [samples.rt_two_entries_direct]])
     <> Ok [Route.mk (ip.mkIP 167837952 24) (Some "ge-0/0/1") (Some false)].
Proof.
  split; [vm_compute; reflexivity|].
  split; [vm_compute; reflexivity|].
  vm_compute. discriminate.
Qed.

(** C4 (amended): for a route built from a destination with one active
    entry, the interface is the text of the first [via] under that entry and
    [is_local] is true exactly when the entry has no [to] beneath it; a
    destination 10.1.1.0/24 with two entries, only the second one active,
    with [via] [ge-0/0/1] and a [to], gives the one route
    (10.1.1.0/24, [ge-0/0/1], not local). *)
Theorem route_of_active_entry :
  (forall rt_elt entry r,
     List.filter Route.current_active (findall rt_elt [Child (qn "rt-entry")])
     = [entry] ->
     Route._from_xml rt_elt = Ok (Some r) ->
     (exists via, hd_error (findall entry [Descendant (qn "via")]) = Some via /\
                  Route.interface r = text via) /\
     (exists b, Route.is_local r = Some b /\
                (b = true <-> findall entry [Descendant (qn "to")] = [])))
  /\
  (forall rt_elt dest e1 e2 via routes,
     find rt_elt [Child (qn "rt-destination")] = Some dest ->
     text dest = Some "10.1.1.0/24" ->
     findall rt_elt [Child (qn "rt-entry")] = [e1; e2] ->
     Route.current_active e1 = false ->
     Route.current_active e2 = true ->
     hd_error (findall e2 [Descendant (qn "via")]) = Some via ->
     text via = Some "ge-0/0/1" ->
     findall e2 [Descendant (qn "to")] <> [] ->
     Firewall.route_body routes rt_elt
     = Ok (routes ++ [Route.mk (ip.mkIP 167837952 24) (Some "ge-0/0/1")
                               (Some false)])).
Proof.
  split.
  - intros rt_elt entry r Hact Hr.
    pose proof (Route_from_xml_last_active rt_elt [] entry r Hact Hr) as Hloc.
    apply Route_from_xml_Some in Hr as (Ht & Hi & _ & _).
    rewrite fold_entry_body_active, Hact in Ht, Hi. simpl in Ht, Hi.
    assert (Route.current_active entry = true) as Ha.
    { assert (In entry (List.filter Route.current_active
                          (findall rt_elt [Child (qn "rt-entry")]))) as Hin.
      { rewrite Hact. by left. }
      by apply filter_In in Hin as [_ ?]. }
    unfold Route.entry_body in Ht, Hi. rewrite Ha in Ht, Hi. simpl in Ht, Hi.
    split.
    + destruct (findall entry [Descendant (qn "via")]) as [|via vias].
      * discriminate.
      * by exists via.
    + eexists. split; [exact Hloc|].
      destruct (findall entry [Descendant (qn "to")]); simpl; split;
        congruence.
  - intros rt_elt dest e1 e2 via routes Hdest Htext Hentries H1 H2 Hvia Hvt Hto.
    unfold Firewall.route_body, Route._from_xml.
    rewrite Hdest, Hentries. simpl. rewrite Htext.
    replace (ip.IP_init (Some "10.1.1.0/24"))
      with (Ok (ip.mkIP 167837952 24)) by (vm_compute; reflexivity).
    simpl. rewrite (entry_body_inactive _ e1 H1).
    unfold Route.entry_body. rewrite H2.
    destruct (findall e2 [Descendant (qn "via")]) as [|v vias];
      [discriminate|].
    injection Hvia as ->. rewrite Hvt. simpl.
    destruct (findall e2 [Descendant (qn "to")]); [done|]. reflexivity.
Qed.

Lemma route_of_active_entry_witness :
  Firewall.route_body [] samples.rt_two_entries
  = Ok [Route.mk (ip.mkIP 167837952 24) (Some "ge-0/0/1") (Some false)]
  /\ exists b,
       Route.is_local
         (Route.mk (ip.mkIP 167837952 24) (Some "ge-0/0/1") (Some false))
       = Some b /\
       (b = true <->
        findall (Elem (qn "rt-entry") None
                   [ Elem (qn "current-active") None [];
                     samples.leaf (qn "protocol-name") "Static";
                     Elem (qn "nh") None
                       [ samples.leaf (qn "to") "10.2.2.2";
                         samples.leaf (qn "via") "ge-0/0/1" ] ])
                [Descendant (qn "to")] = []).
Proof.
  pose (e1 := Elem (qn "rt-entry") None
                [ samples.leaf (qn "protocol-name") "OSPF";
                  Elem (qn "nh") None
                    [ samples.leaf (qn "to") "10.9.9.9";
                      samples.leaf (qn "via") "ge-0/0/0" ] ]).
  pose (e2 := Elem (qn "rt-entry") None
                [ Elem (qn "current-active") None [];
                  samples.leaf (qn "protocol-name") "Static";
                  Elem (qn "nh") None
                    [ samples.leaf (qn "to") "10.2.2.2";
                      samples.leaf (qn "via") "ge-0/0/1" ] ]).
  split.
  - apply (proj2 route_of_active_entry samples.rt_two_entries
             (samples.leaf (qn "rt-destination") "10.1.1.0/24")
             e1 e2 (samples.leaf (qn "via") "ge-0/0/1") []);
      try (vm_compute; reflexivity).
    vm_compute. discriminate.
  - apply (proj1 route_of_active_entry samples.rt_two_entries e2
             (Route.mk (ip.mkIP 167837952 24) (Some "ge-0/0/1") (Some false))).
    + vm_compute. reflexivity.
    + vm_compute. reflexivity.
Defined.

(** ** Policies *)

Section policies.

Context {Py : Builtins}.

Implicit Types (sspe ctx pie : Element) (p : Policy.t).

Lemma for_each_ext {A S} (body body' : S -> A -> result S) (l : list A) s :
  (forall s x, body s x = body' s x) ->
  for_each body l s = for_each body' l s.
Proof.
  intros Hext. revert s. induction l as [|x l IH]; intros s; [done|].
  simpl. rewrite Hext. destruct (body' s x); simpl; [apply IH | done].
Qed.

Lemma for_each_append1 {A B} (g : A -> result B) (l : list A) (acc : list B) :
  for_each (fun acc x => y ← g x; Ok (acc ++ [y])) l acc
  = ys ← list_comp g l; Ok (acc ++ ys).
Proof.
  revert acc. induction l as [|x l IH]; intros acc; simpl.
  - by rewrite app_nil_r.
  - destruct (g x) as [y|e]; [|done]. simpl. rewrite IH.
    destruct (list_comp g l) as [ys|e]; [|done]. simpl.
    by rewrite <- app_assoc.
Qed.

Lemma context_body_append (acc : list Policy.t) ctx :
  Firewall.context_body acc ctx
  = ys ← context_policies ctx; Ok (acc ++ ys).
Proof.
  unfold Firewall.context_body, context_policies.
  destruct (text_of (find ctx [_; Child "source-zone-name"])) as [fz|e];
    [|done].
  simpl. destruct (text_of _) as [tz|e]; [|done]. simpl.
  unfold Firewall.policy_body. apply for_each_append1.
Qed.

Lemma parse_policies_concat sspe :
  Firewall._parse_policies sspe
  = yss ← list_comp context_policies
                    (findall sspe [Descendant "security-context"]);
    Ok (concat yss).
Proof.
  unfold Firewall._parse_policies.
  rewrite (for_each_ext _ (fun acc x => ys ← context_policies x;
                                        Ok (acc ++ ys))).
  - by rewrite for_each_append.
  - apply context_body_append.
Qed.

Lemma context_policies_entries ctx (ys : list Policy.t) :
  context_policies ctx = Ok ys ->
  Forall2 (fun e p => entry_policy e = Ok p)
          (List.map (pair ctx)
             (findall ctx [Child "policies"; Child "policy-information"]))
          ys.
Proof.
  unfold context_policies. intros H.
  apply bind_Ok_inv in H as (fz & Hfz & H).
  apply bind_Ok_inv in H as (tz & Htz & H).
  apply list_comp_Forall2 in H.
  induction H as [|pie p pies ps Hp _ IH]; simpl; constructor; [|done].
  unfold entry_policy. rewrite Hfz. simpl. rewrite Htz. done.
Qed.

(** The policies returned stand, one for one and in order, for the entries
    of the document. *)
Lemma parse_policies_entries sspe (ps : list Policy.t) :
  Firewall._parse_policies sspe = Ok ps ->
  Forall2 (fun e p => entry_policy e = Ok p) (policy_entries sspe) ps.
Proof.
  rewrite parse_policies_concat. intros H.
  apply bind_Ok_inv in H as (yss & Hyss & [= <-]).
  apply list_comp_Forall2 in Hyss. unfold policy_entries.
  induction Hyss as [|ctx ys ctxs yss Hys _ IH]; simpl; [constructor|].
  apply Forall2_app; [|done]. by apply context_policies_entries.
Qed.

Lemma Policy_from_xml_Ok from_zone to_zone pie p :
  Policy._from_xml from_zone to_zone pie = Ok p ->
  Policy.from_zone p = from_zone /\ Policy.to_zone p = to_zone /\
  text_of (find pie [Child "policy-name"]) = Ok (Policy.name p) /\
  (exists state, text_of (find pie [Child "policy-state"]) = Ok state /\
                 Policy.enabled p = bool_decide (state = Some "enabled")) /\
  (exists seq_text,
     text_of (find pie [Child "policy-sequence-number"]) = Ok seq_text /\
     py_int seq_text = Ok (Policy.sequence p)) /\
  text_of (find pie [Child "policy-action"; Child "action-type"])
  = Ok (Policy.action p).
Proof.
  unfold Policy._from_xml. intros H.
  apply bind_Ok_inv in H as (name & Hname & H).
  apply bind_Ok_inv in H as (state & Hstate & H).
  apply bind_Ok_inv in H as (seq_text & Hseq & H).
  apply bind_Ok_inv in H as (sequence & Hint & H).
  apply bind_Ok_inv in H as (srcs & Hsrcs & H).
  apply bind_Ok_inv in H as (dsts & Hdsts & H).
  apply bind_Ok_inv in H as (apps & Happs & H).
  apply bind_Ok_inv in H as (action & Haction & [= <-]).
  simpl. eauto 10.
Qed.

Lemma Policy_from_xml_raises from_zone to_zone pie :
  find pie [Child "policy-name"] = None \/
  find pie [Child "policy-state"] = None \/
  find pie [Child "policy-sequence-number"] = None \/
  find pie [Child "policy-action"; Child "action-type"] = None \/
  (exists elt, find pie [Child "policy-sequence-number"] = Some elt /\
               raises (py_int (text elt))) ->
  raises (Policy._from_xml from_zone to_zone pie).
Proof.
  unfold Policy._from_xml.
  intros [H|[H|[H|[H|(elt & H & Hint)]]]].
  - rewrite H. apply raises_Raise.
  - apply raises_bind_cont. intros ?. rewrite H. apply raises_Raise.
  - do 2 (apply raises_bind_cont; intros ?). rewrite H. apply raises_Raise.
  - do 7 (apply raises_bind_cont; intros ?). rewrite H. apply raises_Raise.
  - do 2 (apply raises_bind_cont; intros ?). rewrite H. simpl.
    by apply raises_bind.
Qed.

End policies.

(** C5: an entry of the document that lacks its [policy-name],
    [policy-state], [policy-sequence-number] or [policy-action/action-type],
    or whose sequence number has a text that [int] does not read as an
    integer, makes [_parse_policies] raise: no list of policies is returned,
    whatever the other entries are.  This holds for any [int]. *)
Theorem parse_policies_malformed_entry {Py : Builtins}
    (sspe ctx pie : Element) :
  ctx ∈ findall sspe [Descendant "security-context"] ->
  pie ∈ findall ctx [Child "policies"; Child "policy-information"] ->
  find pie [Child "policy-name"] = None \/
  find pie [Child "policy-state"] = None \/
  find pie [Child "policy-sequence-number"] = None \/
  find pie [Child "policy-action"; Child "action-type"] = None \/
  (exists elt, find pie [Child "policy-sequence-number"] = Some elt /\
               raises (py_int (text elt))) ->
  raises (Firewall._parse_policies sspe) /\
  forall ps, Firewall._parse_policies sspe <> Ok ps.
Proof.
  intros Hctx Hpie Hbad.
  assert (raises (Firewall._parse_policies sspe)) as Hraises.
  { unfold Firewall._parse_policies.
    apply (for_each_raises _ _ ctx Hctx). intros acc.
    unfold Firewall.context_body.
    do 2 (apply raises_bind_cont; intros ?).
    apply (for_each_raises _ _ pie Hpie). intros acc'.
    unfold Firewall.policy_body. apply raises_bind.
    by apply Policy_from_xml_raises. }
  split; [done|]. intros ps. by apply raises_not_Ok.
Qed.

Lemma parse_policies_malformed_entry_witness :
  raises (Firewall._parse_policies samples.policies_bad_sequence) /\
  forall ps, Firewall._parse_policies samples.policies_bad_sequence <> Ok ps.
Proof.
  apply (parse_policies_malformed_entry samples.policies_bad_sequence
           (samples.security_context "trust" "untrust"
              [ samples.policy_information "web" "enabled" "1" "permit";
                samples.policy_information "mail" "enabled" "one" "deny" ])
           (samples.policy_information "mail" "enabled" "one" "deny")).
  - vm_compute. left.
  - vm_compute. right. left.
  - do 4 right. exists (samples.leaf "policy-sequence-number" "one").
    split; [vm_compute; reflexivity|].
    exists ValueError. vm_compute. reflexivity.
Defined.

(** C8 (as stated): two entries of one context with the same sequence
    number (the text [1], read with the [int] of the examples) are parsed
    into two policies of the same zone pair with the same sequence value. *)
Lemma parse_policies_colliding_sequence :
  exists p1 p2,
    Firewall._parse_policies samples.policies_colliding = Ok [p1; p2] /\
    Policy.from_zone p1 = Policy.from_zone p2 /\
    Policy.to_zone p1 = Policy.to_zone p2 /\
    Policy.sequence p1 = Policy.sequence p2 /\
    Policy.name p1 <> Policy.name p2.
Proof.
  eexists _, _. split; [vm_compute; reflexivity|].
  simpl. repeat split. discriminate.
Qed.

(** C8 (amended): the policies of a parsed document carry, in the order of
    the document, the zone pair of their context and the integer value of
    their [policy-sequence-number]; nothing is checked, so the sequence
    values within a zone pair are pairwise distinct exactly when those of
    the document's entries are. *)
Theorem parse_policies_sequence_as_given {Py : Builtins}
    (sspe : Element) (ps : list Policy.t) :
  Firewall._parse_policies sspe = Ok ps ->
  list_comp entry_key (policy_entries sspe) = Ok (List.map policy_key ps) /\
  (NoDup (List.map policy_key ps) <->
   forall ks, list_comp entry_key (policy_entries sspe) = Ok ks -> NoDup ks).
Proof.
  intros Hps.
  assert (list_comp entry_key (policy_entries sspe)
          = Ok (List.map policy_key ps)) as Hkeys.
  { apply list_comp_Forall2. apply parse_policies_entries in Hps.
    induction Hps as [|[ctx pie] p es ps Hp _ IH]; simpl; constructor; [|done].
    unfold entry_policy in Hp. unfold entry_key.
    apply bind_Ok_inv in Hp as (fz & -> & Hp).
    apply bind_Ok_inv in Hp as (tz & -> & Hp). simpl.
    apply Policy_from_xml_Ok in Hp
      as (Hfz & Htz & _ & _ & (seq_text & -> & Hint) & _).
    simpl. rewrite Hint. simpl. unfold policy_key. by rewrite Hfz, Htz. }
  split; [done|]. split.
  - intros Hnodup ks Hks. rewrite Hkeys in Hks. by injection Hks as <-.
  - intros H. by apply H.
Qed.

Lemma parse_policies_sequence_as_given_witness :
  list_comp entry_key (policy_entries samples.policies_out_of_order)
  = Ok [ (Some "trust", Some "untrust", 2%Z);
         (Some "trust", Some "untrust", 1%Z);
         (Some "untrust", Some "trust", 1%Z) ].
Proof.
  destruct (Firewall._parse_policies samples.policies_out_of_order)
    as [ps|e] eqn:Hps; [|vm_compute in Hps; discriminate].
  pose proof (proj1 (parse_policies_sequence_as_given _ ps Hps)) as H.
  vm_compute in Hps. injection Hps as <-. exact H.
Defined.

(** C9: the policies come out in the order of the document: they stand one
    for one for the entries listed context after context in document order
    and, within a context, entry after entry in document order; the
    sequence numbers play no part in the order. *)
Theorem parse_policies_document_order {Py : Builtins}
    (sspe : Element) (ps : list Policy.t) :
  Firewall._parse_policies sspe = Ok ps ->
  Forall2 (fun e p => entry_policy e = Ok p) (policy_entries sspe) ps /\
  list_comp (fun e => text_of (find (snd e) [Child "policy-name"]))
            (policy_entries sspe)
  = Ok (List.map Policy.name ps).
Proof.
  intros Hps. apply parse_policies_entries in Hps. split; [done|].
  apply list_comp_Forall2.
  induction Hps as [|[ctx pie] p es ps Hp _ IH]; simpl; constructor; [|done].
  unfold entry_policy in Hp.
  apply bind_Ok_inv in Hp as (fz & _ & Hp).
  apply bind_Ok_inv in Hp as (tz & _ & Hp).
  by apply Policy_from_xml_Ok in Hp as (_ & _ & Hname & _).
Qed.

Lemma parse_policies_document_order_witness :
  exists ps,
    Firewall._parse_policies samples.policies_out_of_order = Ok ps /\
    List.map Policy.name ps = [Some "second"; Some "first"; Some "inbound"] /\
    List.map Policy.sequence ps = [2; 1; 1]%Z /\
    List.map Policy.enabled ps = [true; false; true] /\
    Forall2 (fun e p => entry_policy e = Ok p)
            (policy_entries samples.policies_out_of_order) ps.
Proof.
  destruct (Firewall._parse_policies samples.policies_out_of_order)
    as [ps|e] eqn:Hps; [|vm_compute in Hps; discriminate].
  exists ps. split; [done|].
  pose proof (proj1 (parse_policies_document_order _ ps Hps)) as H.
  vm_compute in Hps. injection Hps as <-.
  repeat split; [vm_compute; reflexivity .. | exact H].
Defined.

(** ** IP sets *)

Section ipsets.

Lemma IPSet_contains_add (s t : ip.IPSet) (a : Z) :
  ip.IPSet_contains (ip.IPSet_add s t) a
  = ip.IPSet_contains s a || ip.IPSet_contains t a.
Proof. unfold ip.IPSet_contains, ip.IPSet_add. apply existsb_app. Qed.

Lemma IPSet_contains_concat (members : list ip.IPSet) (a : Z) :
  ip.IPSet_contains (concat members) a
  = existsb (fun s => ip.IPSet_contains s a) members.
Proof.
  induction members as [|s members IH]; [done|].
  simpl. rewrite <- IH. apply (IPSet_contains_add s (concat members) a).
Qed.

(** 0.0.0.0/0 covers every address. *)
Lemma IPSet_full_any : ip.IPSet_full [ip.mkIP 0 0].
Proof.
  intros a [Hlo Hhi]. unfold ip.IPSet_contains, ip.IP_contains.
  cbn [existsb ip.prefixlen ip.net]. change (32 - 0)%Z with 32%Z.
  rewrite Z.shiftr_0_l, Z.shiftr_div_pow2 by lia.
  rewrite Z.div_small by (split; assumption). reflexivity.
Qed.

(** A set with a full member is full. *)
Lemma IPSet_full_add_r (s t : ip.IPSet) :
  ip.IPSet_full t -> ip.IPSet_full (ip.IPSet_add s t).
Proof.
  intros Ht a Ha. rewrite IPSet_contains_add, (Ht a Ha).
  apply orb_true_r.
Qed.

Lemma IPSet_full_eq (s t : ip.IPSet) :
  ip.IPSet_full s -> ip.IPSet_full t -> ip.IPSet_eq s t.
Proof. intros Hs Ht a Ha. by rewrite (Hs a Ha), (Ht a Ha). Qed.

(** 10.0.0.0/24 does not cover 0.0.0.0. *)
Lemma IPSet_not_full_10_0_0_0_24 : ~ ip.IPSet_full [ip.mkIP 167772160 24].
Proof.
  intros H. specialize (H 0%Z). unfold ip.address in H.
  assert (ip.IPSet_contains [ip.mkIP 167772160 24] 0 = false) as Hf
    by (vm_compute; reflexivity).
  rewrite Hf in H. assert (false = true) by (apply H; lia). discriminate.
Qed.

End ipsets.

(** ** Zones *)

Section zones.

Implicit Types (sze book addr setaddr : Element).
Implicit Types (m : gmap (option string) ip.IPSet) (z : Zone.t).

Lemma Zone_init_eq : Zone.__init__ = Ok (Zone.mk None [] builtin_addresses).
Proof. reflexivity. Qed.

Lemma Zone_from_xml_Ok sze z :
  Zone._from_xml sze = Ok z ->
  exists book,
    find sze [Child "address-book"] = Some book /\
    for_each Zone.address_body (children book) builtin_addresses
    = Ok (Zone.addresses z) /\
    text_of (find sze [Child "name"]) = Ok (Zone.name z) /\
    Zone.interfaces z
    = List.map text (findall sze [Descendant "interfaces"; Child "name"]).
Proof.
  unfold Zone._from_xml. rewrite Zone_init_eq. simpl. intros H.
  apply bind_Ok_inv in H as (name & Hname & H).
  destruct (find sze [Child "address-book"]) as [book|]; [|discriminate].
  simpl in H. apply bind_Ok_inv in H as (addrs & Haddrs & [= <-]).
  exists book. simpl. done.
Qed.

(** A zone without [address-book] element is not parsed: the loop over
    [None] raises. *)
Lemma Zone_from_xml_no_book sze :
  find sze [Child "address-book"] = None -> raises (Zone._from_xml sze).
Proof.
  intros H. unfold Zone._from_xml. rewrite Zone_init_eq. simpl.
  apply raises_bind_cont. intros name. rewrite H. apply raises_Raise.
Qed.

Lemma address_body_Ok m addr m' :
  Zone.address_body m addr = Ok m' ->
  exists s, Zone.resolve m addr = Ok s /\ m' = <[entry_name addr := s]> m.
Proof.
  unfold Zone.address_body. intros H.
  apply bind_Ok_inv in H as (s & Hs & [= <-]). by exists s.
Qed.

(** Names stay bound. *)
Lemma address_book_keys (l : list Element) m m' (k : option string) :
  for_each Zone.address_body l m = Ok m' ->
  is_Some (m !! k) -> is_Some (m' !! k).
Proof.
  revert m. induction l as [|addr l IH]; intros m; simpl.
  - by intros [= <-].
  - intros H Hk. apply bind_Ok_inv in H as (m1 & H1 & H).
    apply (IH _ H). apply address_body_Ok in H1 as (s & _ & ->).
    rewrite lookup_insert. by case_decide.
Qed.

(** A name that no entry of the list bears keeps its value. *)
Lemma address_book_untouched (l : list Element) m m' (k : option string) :
  for_each Zone.address_body l m = Ok m' ->
  Forall (fun addr => entry_name addr <> k) l ->
  m' !! k = m !! k.
Proof.
  revert m. induction l as [|addr l IH]; intros m; simpl.
  - by intros [= <-].
  - intros H Hl. apply Forall_cons in Hl as [Hk Hl].
    apply bind_Ok_inv in H as (m1 & H1 & H).
    rewrite (IH _ H Hl). apply address_body_Ok in H1 as (s & _ & ->).
    by apply lookup_insert_ne.
Qed.

(** The state of the address book when an entry is reached, what the entry
    resolves to there, and what remains of it at the end. *)
Lemma address_book_split (pre post : list Element) addr m0 m' :
  for_each Zone.address_body (pre ++ addr :: post) m0 = Ok m' ->
  exists m s,
    for_each Zone.address_body pre m0 = Ok m /\
    Zone.resolve m addr = Ok s /\
    for_each Zone.address_body (pre ++ [addr]) m0
    = Ok (<[entry_name addr := s]> m) /\
    (Forall (fun later => entry_name later <> entry_name addr) post ->
     m' !! entry_name addr = Some s).
Proof.
  rewrite for_each_app. intros H.
  apply bind_Ok_inv in H as (m & Hpre & H). simpl in H.
  apply bind_Ok_inv in H as (m1 & H1 & Hpost).
  pose proof H1 as H1'. apply address_body_Ok in H1' as (s & Hs & ->).
  exists m, s. repeat split; [done | done | |].
  - rewrite for_each_app, Hpre. simpl. by rewrite H1.
  - intros Hlater. rewrite (address_book_untouched _ _ _ _ Hpost Hlater).
    apply lookup_insert_eq.
Qed.

Lemma member_body_eq m (acc : ip.IPSet) setaddr :
  Zone.member_body m acc setaddr
  = match m !! entry_name setaddr with
    | Some s => Ok (ip.IPSet_add acc s)
    | None => Raise KeyError
    end.
Proof. reflexivity. Qed.

(** The members of a set are looked up in the current mapping and added up. *)
Lemma for_each_member_body m (l : list Element) (acc s : ip.IPSet) :
  for_each (Zone.member_body m) l acc = Ok s ->
  exists members,
    Forall2 (fun setaddr s' => m !! entry_name setaddr = Some s') l members /\
    s = acc ++ concat members.
Proof.
  revert acc. induction l as [|setaddr l IH]; intros acc; simpl.
  - intros [= <-]. exists []. split; [constructor | by rewrite app_nil_r].
  - rewrite member_body_eq.
    destruct (m !! entry_name setaddr) as [s'|] eqn:Hs'; simpl;
      [|discriminate].
    intros H. apply IH in H as (members & Hmem & ->).
    exists (s' :: members). split; [by constructor|].
    unfold ip.IPSet_add. simpl. by rewrite <- app_assoc.
Qed.

Lemma for_each_member_body_raises m (l : list Element) setaddr (acc : ip.IPSet) :
  setaddr ∈ l -> m !! entry_name setaddr = None ->
  for_each (Zone.member_body m) l acc = Raise KeyError.
Proof.
  intros Hin Hnone. revert acc.
  induction l as [|x l IH]; intros acc; [by apply elem_of_nil in Hin|].
  simpl. rewrite member_body_eq.
  destruct (m !! entry_name x) as [s'|] eqn:Hx; [|done].
  simpl. apply IH. apply elem_of_cons in Hin as [->|Hin]; [congruence|done].
Qed.

Lemma resolve_set m addr s :
  tag addr <> "address" ->
  Zone.resolve m addr = Ok s ->
  exists members,
    Forall2 (fun setaddr s' => m !! entry_name setaddr = Some s')
            (findall addr [Child "address"]) members /\
    forall a, ip.IPSet_contains s a
              = existsb (fun s' => ip.IPSet_contains s' a) members.
Proof.
  intros Htag. unfold Zone.resolve.
  apply String.eqb_neq in Htag. rewrite Htag. intros H.
  apply for_each_member_body in H as (members & Hmem & ->).
  exists members. split; [done|]. intros a. apply IPSet_contains_concat.
Qed.

Lemma resolve_set_raises m addr setaddr :
  tag addr <> "address" ->
  setaddr ∈ findall addr [Child "address"] ->
  m !! entry_name setaddr = None ->
  Zone.resolve m addr = Raise KeyError.
Proof.
  intros Htag Hin Hnone. unfold Zone.resolve.
  apply String.eqb_neq in Htag. rewrite Htag.
  by eapply for_each_member_body_raises.
Qed.

Lemma parse_zones_Forall2 (scsze : Element) (zs : list Zone.t) :
  Firewall._parse_zones scsze = Ok zs ->
  Forall2 (fun sz z => Zone._from_xml sz = Ok z)
          (findall scsze [Descendant "security-zone"]) zs.
Proof.
  unfold Firewall._parse_zones, Firewall.zone_body.
  rewrite for_each_append1. intros H.
  apply bind_Ok_inv in H as (ys & Hys & [= <-]).
  by apply list_comp_Forall2.
Qed.

Lemma parse_zones_raises (scsze sze : Element) :
  sze ∈ findall scsze [Descendant "security-zone"] ->
  raises (Zone._from_xml sze) ->
  raises (Firewall._parse_zones scsze).
Proof.
  intros Hin Hsze. unfold Firewall._parse_zones.
  apply (for_each_raises _ _ sze Hin). intros acc.
  unfold Firewall.zone_body. by apply raises_bind.
Qed.

End zones.

(** C1 (as stated): a zone whose address book defines an address called
    [any] is returned with [any] bound to that address, which is not the
    whole address space. *)
Lemma zone_any_redefined :
  exists z s,
    Firewall._parse_zones (samples.zones_doc [samples.zone_redefines_any])
    = Ok [z] /\
    Zone.addresses z !! Some "any" = Some s /\
    ~ ip.IPSet_full s.
Proof.
  eexists _, _. split; [vm_compute; reflexivity|].
  split; [vm_compute; reflexivity|].
  apply IPSet_not_full_10_0_0_0_24.
Qed.

(** C1 (amended): every zone returned by the zone extraction comes from a
    [security-zone] element with an address book and has the key [any] in
    its addresses; [any] is bound to 0.0.0.0/0, the whole IPv4 address
    space, when no entry of the address book is itself called [any], and so
    when the address book has no entry at all. *)
Theorem zone_any_builtin :
  (forall scsze zs z,
     Firewall._parse_zones scsze = Ok zs -> z ∈ zs ->
     is_Some (Zone.addresses z !! Some "any") /\
     exists sze, sze ∈ findall scsze [Descendant "security-zone"] /\
                 Zone._from_xml sze = Ok z)
  /\
  (forall sze book z,
     Zone._from_xml sze = Ok z ->
     find sze [Child "address-book"] = Some book ->
     Forall (fun addr => entry_name addr <> Some "any") (children book) ->
     Zone.addresses z !! Some "any" = Some [ip.mkIP 0 0] /\
     ip.IPSet_full [ip.mkIP 0 0]).
Proof.
  split.
  - intros scsze zs z Hzs Hz. apply parse_zones_Forall2 in Hzs.
    apply list_elem_of_lookup in Hz as [i Hi].
    destruct (Forall2_lookup_r _ _ _ i z Hzs Hi) as (sze & Hsze & Hz).
    split.
    + apply Zone_from_xml_Ok in Hz as (book & _ & Hbook & _).
      apply (address_book_keys _ _ _ _ Hbook).
      unfold builtin_addresses. rewrite lookup_singleton_eq. by eexists.
    + exists sze. split; [|done]. by eapply list_elem_of_lookup_2.
  - intros sze book z Hz Hbook Hnone.
    apply Zone_from_xml_Ok in Hz as (book' & Hbook' & Hloop & _).
    rewrite Hbook in Hbook'. injection Hbook' as <-.
    split; [|apply IPSet_full_any].
    rewrite (address_book_untouched _ _ _ _ Hloop Hnone).
    apply lookup_singleton_eq.
Qed.

Lemma zone_any_builtin_witness :
  is_Some (Zone.addresses
             (Zone.mk (Some "untrust") [Some "reth0.0"] builtin_addresses)
           !! Some "any")
  /\ Zone.addresses
       (Zone.mk (Some "untrust") [Some "reth0.0"] builtin_addresses)
     !! Some "any" = Some [ip.mkIP 0 0].
Proof.
  split.
  - apply (proj1 zone_any_builtin
             (samples.zones_doc [samples.zone_empty_book])
             [Zone.mk (Some "untrust") [Some "reth0.0"] builtin_addresses]).
    + vm_compute. reflexivity.
    + left.
  - apply (proj2 zone_any_builtin samples.zone_empty_book
             (Elem "address-book" None [])).
    + vm_compute. reflexivity.
    + vm_compute. reflexivity.
    + constructor.
Defined.

(** C6: when an address-set is reached whose member names one that the
    mapping built so far ([any] and the entries before the set) does not
    hold, [Zone._from_xml] raises (a [KeyError], once the zone has a name)
    and returns no zone, and so does the extraction of a document that
    holds this zone. *)
Theorem zone_unknown_member_raises
    (sze book addr setaddr : Element) (pre post : list Element)
    (m : gmap (option string) ip.IPSet) :
  find sze [Child "address-book"] = Some book ->
  children book = pre ++ addr :: post ->
  for_each Zone.address_body pre builtin_addresses = Ok m ->
  tag addr <> "address" ->
  setaddr ∈ findall addr [Child "address"] ->
  m !! findtext setaddr [Child "name"] = None ->
  raises (Zone._from_xml sze) /\
  (forall z, Zone._from_xml sze <> Ok z) /\
  (is_Some (find sze [Child "name"]) -> Zone._from_xml sze = Raise KeyError) /\
  (forall scsze,
     sze ∈ findall scsze [Descendant "security-zone"] ->
     raises (Firewall._parse_zones scsze)).
Proof.
  intros Hbook Hchildren Hpre Htag Hin Hnone.
  assert (for_each Zone.address_body (children book) builtin_addresses
          = Raise KeyError) as Hloop.
  { rewrite Hchildren, for_each_app, Hpre. simpl.
    unfold Zone.address_body.
    by rewrite (resolve_set_raises m addr setaddr Htag Hin Hnone). }
  assert (forall name, text_of (find sze [Child "name"]) = Ok name ->
                       Zone._from_xml sze = Raise KeyError) as Hnamed.
  { intros name Hname. unfold Zone._from_xml. rewrite Zone_init_eq. simpl.
    rewrite Hname. simpl. rewrite Hbook. simpl. by rewrite Hloop. }
  assert (raises (Zone._from_xml sze)) as Hraises.
  { destruct (text_of (find sze [Child "name"])) as [name|e] eqn:Hname.
    - rewrite (Hnamed name eq_refl). apply raises_Raise.
    - unfold Zone._from_xml. rewrite Zone_init_eq. simpl. rewrite Hname.
      apply raises_Raise. }
  split; [done|]. split; [intros z; by apply raises_not_Ok|].
  split.
  - intros [elt Helt]. apply (Hnamed (text elt)). by rewrite Helt.
  - intros scsze Hsze. by eapply parse_zones_raises.
Qed.

Lemma zone_unknown_member_raises_witness :
  Zone._from_xml samples.zone_forward_reference = Raise KeyError /\
  raises (Firewall._parse_zones
            (samples.zones_doc
               [samples.zone_empty_book; samples.zone_forward_reference])).
Proof.
  pose proof (zone_unknown_member_raises
                samples.zone_forward_reference
                (Elem "address-book" None
                   [ samples.address_set "S" ["A"];
                     samples.address "A" "10.0.0.0/24" ])
                (samples.address_set "S" ["A"])
                (Elem "address" None [ samples.leaf "name" "A" ])
                [] [ samples.address "A" "10.0.0.0/24" ]
                builtin_addresses
                ltac:(vm_compute; reflexivity)
                ltac:(reflexivity)
                ltac:(reflexivity)
                ltac:(vm_compute; discriminate)
                ltac:(vm_compute; left)
                ltac:(vm_compute; reflexivity))
    as (_ & _ & Hkey & Hdoc).
  split.
  - apply Hkey. vm_compute. by eexists.
  - apply Hdoc. vm_compute. right. left.
Defined.

(** C7: an address-set resolves, in the mapping built when it is reached,
    to a set that covers exactly the addresses its named members cover
    there, and that set is stored under the name of the address-set (and is
    what the zone holds under that name, unless a later entry bears the
    name); two results of resolving one document hold value-equal sets; an
    address [A] = 10.0.0.0/24 followed by a set [S] of [A] and [any] gives
    [S] the whole address space and leaves [A] at 10.0.0.0/24. *)
Theorem zone_address_set_union :
  (forall sze book addr (pre post : list Element) z,
     Zone._from_xml sze = Ok z ->
     find sze [Child "address-book"] = Some book ->
     children book = pre ++ addr :: post ->
     tag addr <> "address" ->
     exists (m : gmap (option string) ip.IPSet) (s : ip.IPSet)
            (members : list ip.IPSet),
       for_each Zone.address_body pre builtin_addresses = Ok m /\
       Forall2 (fun setaddr s' => m !! findtext setaddr [Child "name"] = Some s')
               (findall addr [Child "address"]) members /\
       (forall a, ip.IPSet_contains s a
                  = existsb (fun s' => ip.IPSet_contains s' a) members) /\
       for_each Zone.address_body (pre ++ [addr]) builtin_addresses
       = Ok (<[findtext addr [Child "name"] := s]> m) /\
       (Forall (fun later => findtext later [Child "name"]
                             <> findtext addr [Child "name"]) post ->
        Zone.addresses z !! findtext addr [Child "name"] = Some s))
  /\
  (forall sze z1 z2 (k : option string) (s1 s2 : ip.IPSet),
     Zone._from_xml sze = Ok z1 -> Zone._from_xml sze = Ok z2 ->
     Zone.addresses z1 !! k = Some s1 -> Zone.addresses z2 !! k = Some s2 ->
     ip.IPSet_eq s1 s2)
  /\
  (exists z s,
     Zone._from_xml samples.zone_set_with_any = Ok z /\
     Zone.addresses z !! Some "S" = Some s /\
     ip.IPSet_full s /\ ip.IPSet_eq s [ip.mkIP 0 0] /\
     Zone.addresses z !! Some "A" = Some [ip.mkIP 167772160 24]).
Proof.
  split; [|split].
  - intros sze book addr pre post z Hz Hbook Hchildren Htag.
    apply Zone_from_xml_Ok in Hz as (book' & Hbook' & Hloop & _).
    rewrite Hbook in Hbook'. injection Hbook' as <-.
    rewrite Hchildren in Hloop.
    apply address_book_split in Hloop as (m & s & Hpre & Hs & Hstep & Hend).
    destruct (resolve_set m addr s Htag Hs) as (members & Hmem & Hunion).
    exists m, s, members. done.
  - intros sze z1 z2 k s1 s2 H1 H2 Hs1 Hs2.
    rewrite H1 in H2. injection H2 as <-.
    rewrite Hs1 in Hs2. injection Hs2 as <-. by intros a _.
  - eexists _, _. split; [vm_compute; reflexivity|].
    split; [vm_compute; reflexivity|].
    assert (ip.IPSet_full [ip.mkIP 167772160 24; ip.mkIP 0 0]) as Hfull.
    { apply (IPSet_full_add_r [ip.mkIP 167772160 24] [ip.mkIP 0 0]).
      apply IPSet_full_any. }
    split; [exact Hfull|].
    split; [apply IPSet_full_eq; [exact Hfull | apply IPSet_full_any]|].
    vm_compute. reflexivity.
Qed.

Lemma zone_address_set_union_witness :
  exists (m : gmap (option string) ip.IPSet) (s : ip.IPSet)
         (members : list ip.IPSet),
    for_each Zone.address_body [samples.address "A" "10.0.0.0/24"]
             builtin_addresses = Ok m /\
    Forall2 (fun setaddr s' => m !! findtext setaddr [Child "name"] = Some s')
            (findall (samples.address_set "S" ["A"; "any"]) [Child "address"])
            members /\
    (forall a, ip.IPSet_contains s a
               = existsb (fun s' => ip.IPSet_contains s' a) members) /\
    m !! Some "A" = Some [ip.mkIP 167772160 24].
Proof.
  pose (z := Zone.mk (Some "trust") [Some "reth0.0"]
              (<[Some "S" := [ip.mkIP 167772160 24; ip.mkIP 0 0]]>
                 (<[Some "A" := [ip.mkIP 167772160 24]]>
                    builtin_addresses))).
  destruct (proj1 zone_address_set_union
              samples.zone_set_with_any
              (Elem "address-book" None
                 [ samples.address "A" "10.0.0.0/24";
                   samples.address_set "S" ["A"; "any"] ])
              (samples.address_set "S" ["A"; "any"])
              [samples.address "A" "10.0.0.0/24"] [] z
              ltac:(vm_compute; reflexivity)
              ltac:(vm_compute; reflexivity)
              ltac:(reflexivity)
              ltac:(vm_compute; discriminate))
    as (m & s & members & Hpre & Hmem & Hunion & _ & _).
  exists m, s, members. repeat split; [exact Hpre | exact Hmem | exact Hunion |].
  vm_compute in Hpre. injection Hpre as <-. vm_compute. reflexivity.
Defined.

(** C10: an entry of the address book is stored under its name whatever the
    name was bound to before, an earlier entry or the built-in [any], and
    the zone holds the value of the last entry that bears the name; an
    address called [any] replaces the built-in binding, and a later set of
    [any] resolves to the new value. *)
Theorem zone_later_entry_overwrites :
  (forall sze book addr (pre post : list Element) z,
     Zone._from_xml sze = Ok z ->
     find sze [Child "address-book"] = Some book ->
     children book = pre ++ addr :: post ->
     exists (m : gmap (option string) ip.IPSet) (s : ip.IPSet),
       for_each Zone.address_body pre builtin_addresses = Ok m /\
       Zone.resolve m addr = Ok s /\
       for_each Zone.address_body (pre ++ [addr]) builtin_addresses
       = Ok (<[findtext addr [Child "name"] := s]> m) /\
       (Forall (fun later => findtext later [Child "name"]
                             <> findtext addr [Child "name"]) post ->
        Zone.addresses z !! findtext addr [Child "name"] = Some s))
  /\
  (exists z,
     Zone._from_xml samples.zone_same_name_twice = Ok z /\
     Zone.addresses z !! Some "A" = Some [ip.mkIP 167837696 16])
  /\
  (exists z,
     Zone._from_xml samples.zone_redefines_any = Ok z /\
     Zone.addresses z !! Some "any" = Some [ip.mkIP 167772160 24] /\
     Zone.addresses z !! Some "S" = Some [ip.mkIP 167772160 24]).
Proof.
  split; [|split].
  - intros sze book addr pre post z Hz Hbook Hchildren.
    apply Zone_from_xml_Ok in Hz as (book' & Hbook' & Hloop & _).
    rewrite Hbook in Hbook'. injection Hbook' as <-.
    rewrite Hchildren in Hloop.
    apply address_book_split in Hloop as (m & s & Hpre & Hs & Hstep & Hend).
    exists m, s. done.
  - eexists. split; [vm_compute; reflexivity|]. vm_compute. reflexivity.
  - eexists. split; [vm_compute; reflexivity|].
    split; vm_compute; reflexivity.
Qed.

Lemma zone_later_entry_overwrites_witness :
  exists (m : gmap (option string) ip.IPSet) (s : ip.IPSet),
    for_each Zone.address_body [samples.address "A" "10.0.0.0/24"]
             builtin_addresses = Ok m /\
    Zone.resolve m (samples.address "A" "10.1.0.0/16") = Ok s /\
    m !! Some "A" = Some [ip.mkIP 167772160 24] /\
    s = [ip.mkIP 167837696 16] /\
    Zone.addresses
      (Zone.mk (Some "trust") [Some "reth0.0"]
         (<[Some "A" := [ip.mkIP 167837696 16]]>
            (<[Some "A" := [ip.mkIP 167772160 24]]> builtin_addresses)))
    !! Some "A" = Some s.
Proof.
  pose (z := Zone.mk (Some "trust") [Some "reth0.0"]
              (<[Some "A" := [ip.mkIP 167837696 16]]>
                 (<[Some "A" := [ip.mkIP 167772160 24]]> builtin_addresses))).
  destruct (proj1 zone_later_entry_overwrites
              samples.zone_same_name_twice
              (Elem "address-book" None
                 [ samples.address "A" "10.0.0.0/24";
                   samples.address "A" "10.1.0.0/16" ])
              (samples.address "A" "10.1.0.0/16")
              [samples.address "A" "10.0.0.0/24"] [] z
              ltac:(vm_compute; reflexivity)
              ltac:(vm_compute; reflexivity)
              ltac:(reflexivity))
    as (m & s & Hpre & Hs & _ & Hend).
  exists m, s. split; [exact Hpre|]. split; [exact Hs|].
  specialize (Hend ltac:(constructor)).
  vm_compute in Hpre. injection Hpre as <-.
  vm_compute in Hs. injection Hs as <-.
  split; [vm_compute; reflexivity|]. split; [reflexivity|]. exact Hend.
Defined.

(** * Further properties *)

(** ** Success of the error monad *)

Lemma is_ok_true {A} (m : result A) : is_ok m = true <-> exists a, m = Ok a.
Proof.
  destruct m as [a|e]; simpl; split; try done.
  - by exists a.
  - by intros [a [=]].
Qed.

Lemma ok_bind_iff {A B} (m : result A) (k : A -> result B) :
  (exists b, m ≫= k = Ok b) <-> exists a, m = Ok a /\ exists b, k a = Ok b.
Proof.
  split.
  - intros [b H]. apply bind_Ok_inv in H as (a & Ha & Hb). eauto.
  - intros (a & -> & b & Hb). by exists b.
Qed.

Lemma ok_text_of (x : option Element) :
  (exists t, text_of x = Ok t) <-> is_Some x.
Proof.
  destruct x as [e|]; simpl; split.
  - by eexists.
  - by eexists.
  - by intros [t [=]].
  - by intros [e [=]].
Qed.

Lemma ok_list_comp_iff {A B} (f : A -> result B) (l : list A) :
  (exists ys, list_comp f l = Ok ys) <-> Forall (fun x => exists y, f x = Ok y) l.
Proof.
  induction l as [|x l IH]; simpl.
  - split; [constructor | by eexists].
  - rewrite ok_bind_iff, Forall_cons. split.
    + intros (y & Hy & H). split; [by exists y|]. apply IH.
      apply ok_bind_iff in H as (ys & Hys & _). by exists ys.
    + intros [[y Hy] Hl]. exists y. split; [done|].
      apply IH in Hl as [ys Hys]. rewrite Hys. by eexists.
Qed.

Lemma list_comp_ok_Forall {A B} (f : A -> result B) (l : list A)
    (ys : list B) :
  list_comp f l = Ok ys -> Forall (fun x => exists y, f x = Ok y) l.
Proof. intros H. apply ok_list_comp_iff. by exists ys. Qed.

(** ** Policies *)

Lemma ok_parse_address (e : Element) :
  (exists n, Policy._parse_address e = Ok n)
  <-> is_Some (find e [Child "address-name"]).
Proof. apply ok_text_of. Qed.

Lemma ok_parse_application (e : Element) :
  (exists n, Policy._parse_application e = Ok n)
  <-> is_Some (find e [Child "application-name"]).
Proof. apply ok_text_of. Qed.

Lemma Policy_from_xml_ok_iff {Py : Builtins}
    (from_zone to_zone : option string) (pie : Element) :
  (exists p, Policy._from_xml from_zone to_zone pie = Ok p)
  <-> policy_entry_ok pie.
Proof.
  unfold Policy._from_xml, policy_entry_ok.
  rewrite ok_bind_iff. setoid_rewrite ok_bind_iff.
  setoid_rewrite ok_bind_iff. setoid_rewrite ok_bind_iff.
  split.
  - intros (name & Hname & state & Hstate & seq_text & Hseq & n & Hn & H).
    apply ok_bind_iff in H as (srcs & Hsrcs & H).
    apply ok_bind_iff in H as (dsts & Hdsts & H).
    apply ok_bind_iff in H as (apps & Happs & H).
    apply ok_bind_iff in H as (action & Haction & _).
    split; [apply ok_text_of; eauto|]. split; [apply ok_text_of; eauto|].
    split.
    { destruct (find pie [Child "policy-sequence-number"]) as [elt|];
        [|discriminate].
      injection Hseq as <-. exists elt. split; [done|]. by rewrite Hn. }
    split.
    { eapply Forall_impl; [exact (list_comp_ok_Forall _ _ _ Hsrcs)|].
      intros e. apply ok_parse_address. }
    split.
    { eapply Forall_impl; [exact (list_comp_ok_Forall _ _ _ Hdsts)|].
      intros e. apply ok_parse_address. }
    split.
    { eapply Forall_impl; [exact (list_comp_ok_Forall _ _ _ Happs)|].
      intros e. apply ok_parse_application. }
    apply ok_text_of. eauto.
  - intros (Hname & Hstate & (elt & Hseq & Hint)
            & Hsrcs & Hdsts & Happs & Haction).
    apply ok_text_of in Hname as [name Hname].
    apply ok_text_of in Hstate as [state Hstate].
    apply ok_text_of in Haction as [action Haction].
    apply is_ok_true in Hint as [n Hn].
    exists name. split; [done|]. exists state. split; [done|].
    exists (text elt). split; [by rewrite Hseq|].
    exists n. split; [done|].
    assert (exists srcs, list_comp Policy._parse_address
                           (findall pie [Child "source-addresses"; Star])
                         = Ok srcs) as [srcs ->].
    { apply ok_list_comp_iff. eapply Forall_impl; [exact Hsrcs|].
      intros e. apply ok_parse_address. }
    assert (exists dsts, list_comp Policy._parse_address
                           (findall pie [Child "destination-addresses"; Star])
                         = Ok dsts) as [dsts ->].
    { apply ok_list_comp_iff. eapply Forall_impl; [exact Hdsts|].
      intros e. apply ok_parse_address. }
    assert (exists apps, list_comp Policy._parse_application
                           (findall pie [Child "applications";
                                         Child "application"])
                         = Ok apps) as [apps ->].
    { apply ok_list_comp_iff. eapply Forall_impl; [exact Happs|].
      intros e. apply ok_parse_application. }
    simpl. rewrite Haction. simpl. by eexists.
Qed.

Lemma context_policies_ok_iff {Py : Builtins} (ctx : Element) :
  (exists ys, context_policies ctx = Ok ys) <-> context_ok ctx.
Proof.
  unfold context_policies, context_ok.
  rewrite ok_bind_iff. setoid_rewrite ok_bind_iff. split.
  - intros (fz & Hfz & tz & Htz & H).
    split; [apply ok_text_of; eauto|]. split; [apply ok_text_of; eauto|].
    apply ok_list_comp_iff in H. eapply Forall_impl; [exact H|].
    intros pie. apply Policy_from_xml_ok_iff.
  - intros (Hfz & Htz & H).
    apply ok_text_of in Hfz as [fz Hfz]. apply ok_text_of in Htz as [tz Htz].
    exists fz. split; [done|]. exists tz. split; [done|].
    apply ok_list_comp_iff. eapply Forall_impl; [exact H|].
    intros pie. apply Policy_from_xml_ok_iff.
Qed.

(** X1: whatever [int] is, [Policy._from_xml] returns a policy exactly for
    the entries that have a name, a state, a sequence number whose text
    [int] accepts and an action type, and whose listed addresses and
    applications all have their name element; the zones play no part in
    this, and neither does the text of the other fields (an empty
    [policy-name] gives the name [None]). *)
Theorem policy_entry_read_iff {Py : Builtins}
    (from_zone to_zone : option string) (pie : Element) :
  (exists p, Policy._from_xml from_zone to_zone pie = Ok p)
  <-> policy_entry_ok pie.
Proof. apply Policy_from_xml_ok_iff. Qed.

(** X2: whatever [int] is, [_parse_policies] returns a list exactly when
    every [security-context] of the document has both zone names and only
    entries that can be read; a context without zone names makes it raise
    even when it has no entry at all. *)
Theorem parse_policies_ok_iff {Py : Builtins} (sspe : Element) :
  (exists ps, Firewall._parse_policies sspe = Ok ps)
  <-> Forall context_ok (findall sspe [Descendant "security-context"]).
Proof.
  rewrite parse_policies_concat, ok_bind_iff. split.
  - intros (yss & Hyss & _). apply list_comp_ok_Forall in Hyss.
    eapply Forall_impl; [exact Hyss|]. intros ctx.
    apply context_policies_ok_iff.
  - intros H.
    assert (exists yss, list_comp context_policies
                          (findall sspe [Descendant "security-context"])
                        = Ok yss) as [yss Hyss].
    { apply ok_list_comp_iff. eapply Forall_impl; [exact H|].
      intros ctx. apply context_policies_ok_iff. }
    exists yss. split; [done|]. by eexists.
Qed.

(** X3: no entry is skipped: a parsed document gives as many policies as it
    has entries, and a policy is enabled exactly when the text of its
    entry's [policy-state] is [enabled]; an entry in any other state still
    gives its policy. *)
Theorem parse_policies_keeps_disabled {Py : Builtins}
    (sspe : Element) (ps : list Policy.t) :
  Firewall._parse_policies sspe = Ok ps ->
  length ps = length (policy_entries sspe) /\
  Forall2 (fun e p =>
             exists st, find (snd e) [Child "policy-state"] = Some st /\
                        (Policy.enabled p = true <-> text st = Some "enabled"))
          (policy_entries sspe) ps.
Proof.
  intros Hps. apply parse_policies_entries in Hps. split.
  - symmetry. by eapply Forall2_length.
  - eapply Forall2_impl; [exact Hps|]. intros [ctx pie] p Hp. simpl.
    unfold entry_policy in Hp.
    apply bind_Ok_inv in Hp as (fz & _ & Hp).
    apply bind_Ok_inv in Hp as (tz & _ & Hp).
    apply Policy_from_xml_Ok in Hp
      as (_ & _ & _ & (state & Hstate & Henabled) & _).
    destruct (find pie [Child "policy-state"]) as [st|]; [|discriminate].
    injection Hstate as <-. exists st. split; [done|].
    rewrite Henabled. apply bool_decide_eq_true.
Qed.

Lemma parse_policies_keeps_disabled_witness :
  exists ps,
    Firewall._parse_policies samples.policies_out_of_order = Ok ps /\
    length ps = 3 /\
    List.map Policy.enabled ps = [true; false; true].
Proof.
  destruct (Firewall._parse_policies samples.policies_out_of_order)
    as [ps|e] eqn:Hps; [|vm_compute in Hps; discriminate].
  exists ps. split; [done|].
  pose proof (proj1 (parse_policies_keeps_disabled _ ps Hps)) as Hlen.
  split; [exact Hlen|].
  vm_compute in Hps. injection Hps as <-. reflexivity.
Defined.

(** ** Routes *)

Lemma parse_routes_selected (sre table : Element) :
  selected_table sre table ->
  Firewall._parse_routes sre = Firewall.table_routes table.
Proof.
  intros (pre & post & Htables & Hpre & Htable).
  unfold Firewall._parse_routes. rewrite Htables, route_tables_skip.
  - simpl. unfold Firewall.inet0. by rewrite bool_decide_eq_true_2.
  - eapply Forall_impl; [exact Hpre|]. intros t. apply inet0_false.
Qed.

Lemma table_routes_raises (table rt_elt : Element) :
  rt_elt ∈ findall table [Child (qn "rt")] ->
  raises (Route._from_xml rt_elt) ->
  raises (Firewall.table_routes table).
Proof.
  intros Hin Hrt. unfold Firewall.table_routes.
  apply (for_each_raises _ _ rt_elt Hin). intros acc.
  unfold Firewall.route_body. by apply raises_bind.
Qed.

Lemma for_each_route_body_none (l : list Element) (acc : list Route.t) :
  Forall (fun rt_elt => Route._from_xml rt_elt = Ok None) l ->
  for_each Firewall.route_body l acc = Ok acc.
Proof.
  induction 1 as [|rt_elt l Hrt _ IH]; [done|].
  simpl. unfold Firewall.route_body at 2. by rewrite Hrt.
Qed.

Lemma filter_current_active_Forall (l : list Element) :
  Forall (fun entry => Route.current_active entry = true)
         (List.filter Route.current_active l).
Proof.
  apply Forall_forall. intros entry Hin. apply list_elem_of_In in Hin.
  by apply filter_In in Hin as [_ ?].
Qed.

Lemma length_omap_id {A} (os : list (option A)) :
  length (omap id os) <= length os.
Proof.
  induction os as [|[a|] os IH]; [done| |].
  - change (omap id (Some a :: os)) with (a :: omap id os). simpl. lia.
  - change (omap id (None :: os)) with (omap id os). simpl. lia.
Qed.

(** X5: an [rt] without [rt-destination] makes [Route._from_xml] raise,
    whatever its entries, and when it stands in the selected table the whole
    route extraction raises: such an [rt] is not one of those that are
    silently left out. *)
Theorem route_without_destination_raises (rt_elt : Element) :
  find rt_elt [Child (qn "rt-destination")] = None ->
  Route._from_xml rt_elt = Raise AttributeError /\
  forall sre table,
    selected_table sre table ->
    rt_elt ∈ findall table [Child (qn "rt")] ->
    raises (Firewall._parse_routes sre).
Proof.
  intros Hnone.
  assert (Route._from_xml rt_elt = Raise AttributeError) as Hraise.
  { unfold Route._from_xml. by rewrite Hnone. }
  split; [done|]. intros sre table Hsel Hin.
  rewrite (parse_routes_selected _ _ Hsel).
  apply (table_routes_raises table rt_elt Hin). rewrite Hraise.
  apply raises_Raise.
Qed.

Lemma route_without_destination_raises_witness :
  Route._from_xml samples.rt_broken = Raise AttributeError /\
  raises (Firewall._parse_routes
            (samples.routes_doc
               [samples.table "inet.0"
                  [samples.rt_two_entries; samples.rt_broken]])).
Proof.
  destruct (route_without_destination_raises samples.rt_broken
              ltac:(vm_compute; reflexivity)) as [Hrt Hdoc].
  split; [exact Hrt|].
  apply (Hdoc _ (samples.table "inet.0"
                   [samples.rt_two_entries; samples.rt_broken])).
  - exists [], []. split; [vm_compute; reflexivity|].
    split; [constructor | vm_compute; reflexivity].
  - vm_compute. right. left.
Defined.

(** X6: the routes returned are, in the order of the [rt] children of the
    selected table, the routes that [Route._from_xml] returns for them: at
    most one for each [rt], none for those it returns [None] for. *)
Theorem parse_routes_in_order (sre table : Element) (rs : list Route.t) :
  selected_table sre table ->
  (Firewall._parse_routes sre = Ok rs <->
   exists os, Forall2 (fun rt_elt o => Route._from_xml rt_elt = Ok o)
                      (findall table [Child (qn "rt")]) os /\
              rs = omap id os) /\
  (Firewall._parse_routes sre = Ok rs ->
   length rs <= length (findall table [Child (qn "rt")])).
Proof.
  intros Hsel. rewrite (parse_routes_selected _ _ Hsel).
  unfold Firewall.table_routes. rewrite for_each_route_body.
  assert (list_comp Route._from_xml (findall table [Child (qn "rt")])
          ≫= (fun os => Ok ([] ++ omap id os)) = Ok rs <->
          exists os, Forall2 (fun rt_elt o => Route._from_xml rt_elt = Ok o)
                             (findall table [Child (qn "rt")]) os /\
                     rs = omap id os) as Hiff.
  { split.
    - intros H. apply bind_Ok_inv in H as (os & Hos & [= <-]).
      exists os. split; [by apply list_comp_Forall2 | done].
    - intros (os & Hos & ->). apply list_comp_Forall2 in Hos.
      by rewrite Hos. }
  split; [exact Hiff|]. intros H. apply Hiff in H as (os & Hos & ->).
  rewrite (Forall2_length _ _ _ Hos). apply length_omap_id.
Qed.

Lemma parse_routes_in_order_witness :
  Firewall._parse_routes
    (samples.routes_doc
       [samples.table_inet6; samples.table_inet0; samples.table_inet0_again])
  = Ok [Route.mk (ip.mkIP 167837952 24) (Some "ge-0/0/1") (Some false)].
Proof.
  assert (selected_table
            (samples.routes_doc
               [samples.table_inet6; samples.table_inet0;
                samples.table_inet0_again])
            samples.table_inet0) as Hsel.
  { exists [samples.table_inet6], [samples.table_inet0_again].
    split; [vm_compute; reflexivity|].
    split; [repeat constructor; vm_compute; discriminate
           | vm_compute; reflexivity]. }
  apply (proj1 (parse_routes_in_order _ samples.table_inet0 _ Hsel)).
  exists [Some (Route.mk (ip.mkIP 167837952 24) (Some "ge-0/0/1") (Some false));
          None].
  split; [|reflexivity].
  repeat constructor; vm_compute; reflexivity.
Defined.

(** X7: when several entries of a destination are active, the loop does not
    stop at the first: the interface is the text of the first [via] of the
    last active entry that has one, [is_local] is decided by the last
    active entry, which may be another one, and no route is returned when
    that [via] has no text, even if an earlier active entry had one. *)
Theorem route_several_active_entries
    (rt_elt e v : Element) (before after vs : list Element) :
  List.filter Route.current_active (findall rt_elt [Child (qn "rt-entry")])
  = before ++ e :: after ->
  findall e [Descendant (qn "via")] = v :: vs ->
  Forall (fun entry => findall entry [Descendant (qn "via")] = []) after ->
  (forall r, Route._from_xml rt_elt = Ok (Some r) ->
             Route.interface r = text v) /\
  (truthy_str (text v) = false ->
   forall r, Route._from_xml rt_elt <> Ok (Some r)) /\
  (forall others e_last r,
     before ++ e :: after = others ++ [e_last] ->
     Route._from_xml rt_elt = Ok (Some r) ->
     Route.is_local r
     = Some (negb (truthy_list (findall e_last [Descendant (qn "to")])))).
Proof.
  intros Hact Hvia Hafter.
  assert (fst (fold_left Route.entry_body
                 (findall rt_elt [Child (qn "rt-entry")]) (None, None))
          = text v) as Hfst.
  { rewrite fold_entry_body_active, Hact, fold_left_app. simpl.
    rewrite fold_entry_body_no_via.
    - assert (Route.current_active e = true) as Ha.
      { pose proof (filter_current_active_Forall
                      (findall rt_elt [Child (qn "rt-entry")])) as Hall.
        rewrite Hact in Hall. apply Forall_app in Hall as [_ Hall].
        by apply Forall_cons in Hall as [? _]. }
      unfold Route.entry_body. by rewrite Ha, Hvia.
    - eapply Forall_impl; [exact Hafter|]. by intros entry ? _. }
  split; [|split].
  - intros r Hr. apply Route_from_xml_Some in Hr as (_ & -> & _). exact Hfst.
  - intros Hv r Hr. apply Route_from_xml_Some in Hr as (Ht & _).
    rewrite Hfst, Hv in Ht. discriminate.
  - intros others e_last r Hlast Hr.
    apply (Route_from_xml_last_active rt_elt others e_last r); [|done].
    by rewrite Hact.
Qed.

Lemma route_several_active_entries_witness :
  Route._from_xml samples.rt_two_active
  = Ok (Some (Route.mk (ip.mkIP 167968768 16) (Some "ge-0/0/0") (Some false)))
  /\ Route.interface
       (Route.mk (ip.mkIP 167968768 16) (Some "ge-0/0/0") (Some false))
     = text (samples.leaf (qn "via") "ge-0/0/0")
  /\ Route.is_local
       (Route.mk (ip.mkIP 167968768 16) (Some "ge-0/0/0") (Some false))
     = Some (negb (truthy_list
                     (findall
                        (Elem (qn "rt-entry") None
                           [ Elem (qn "current-active") None [];
                             Elem (qn "nh") None
                               [ samples.leaf (qn "to") "10.2.2.2" ] ])
                        [Descendant (qn "to")]))).
Proof.
  pose (e1 := Elem (qn "rt-entry") None
                [ Elem (qn "current-active") None [];
                  Elem (qn "nh") None [ samples.leaf (qn "via") "ge-0/0/0" ] ]).
  pose (e2 := Elem (qn "rt-entry") None
                [ Elem (qn "current-active") None [];
                  Elem (qn "nh") None [ samples.leaf (qn "to") "10.2.2.2" ] ]).
  assert (Route._from_xml samples.rt_two_active
          = Ok (Some (Route.mk (ip.mkIP 167968768 16) (Some "ge-0/0/0")
                               (Some false)))) as Hr
    by (vm_compute; reflexivity).
  destruct (route_several_active_entries samples.rt_two_active e1
              (samples.leaf (qn "via") "ge-0/0/0") [] [e2] []
              ltac:(vm_compute; reflexivity)
              ltac:(vm_compute; reflexivity)
              ltac:(repeat constructor))
    as (Hitf & _ & Hloc).
  split; [exact Hr|]. split.
  - exact (Hitf _ Hr).
  - exact (Hloc [e1] e2 _ eq_refl Hr).
Defined.

(** X8: when the selected table has no [rt] child, or only ones that
    [Route._from_xml] returns [None] for, the result is the empty list, the
    same as for a document without a table named [inet.0]. *)
Theorem parse_routes_nothing_kept (sre table : Element) :
  selected_table sre table ->
  Forall (fun rt_elt => Route._from_xml rt_elt = Ok None)
         (findall table [Child (qn "rt")]) ->
  Firewall._parse_routes sre = Ok [].
Proof.
  intros Hsel Hnone. rewrite (parse_routes_selected _ _ Hsel).
  by apply for_each_route_body_none.
Qed.

Lemma parse_routes_nothing_kept_witness :
  Firewall._parse_routes
    (samples.routes_doc [samples.table "inet.0" [samples.rt_discard]])
  = Ok []
  /\ Firewall._parse_routes (samples.routes_doc [samples.table "inet.0" []])
     = Ok [].
Proof.
  split.
  - apply (parse_routes_nothing_kept _
             (samples.table "inet.0" [samples.rt_discard])).
    + exists [], []. split; [vm_compute; reflexivity|].
      split; [constructor | vm_compute; reflexivity].
    + repeat constructor.
  - apply (parse_routes_nothing_kept _ (samples.table "inet.0" [])).
    + exists [], []. split; [vm_compute; reflexivity|].
      split; [constructor | vm_compute; reflexivity].
    + constructor.
Defined.

(** ** Zones *)

Section zones_more.

Implicit Types (sze book addr setaddr : Element).
Implicit Types (m : gmap (option string) ip.IPSet) (z : Zone.t).

Lemma entry_names_nil : entry_names [] = ∅.
Proof. reflexivity. Qed.

Lemma entry_names_cons addr (l : list Element) :
  entry_names (addr :: l) = {[entry_name addr]} ∪ entry_names l.
Proof. reflexivity. Qed.

Lemma names_insert_cons (D : gset (option string)) addr (l : list Element) :
  {[entry_name addr]} ∪ D ∪ entry_names l = D ∪ entry_names (addr :: l).
Proof.
  rewrite entry_names_cons, (comm_L (∪) {[entry_name addr]} D).
  by rewrite (assoc_L (∪)).
Qed.

Lemma address_book_dom (l : list Element) m m' :
  for_each Zone.address_body l m = Ok m' ->
  dom m' = dom m ∪ entry_names l.
Proof.
  revert m. induction l as [|addr l IH]; intros m; simpl.
  - intros [= <-]. by rewrite entry_names_nil, (right_id_L ∅ (∪)).
  - intros H. apply bind_Ok_inv in H as (m1 & H1 & H).
    rewrite (IH _ H).
    apply address_body_Ok in H1 as (s & _ & ->).
    rewrite dom_insert_L. apply names_insert_cons.
Qed.

Lemma members_ok_iff m (l : list Element) (acc : ip.IPSet) :
  (exists s, for_each (Zone.member_body m) l acc = Ok s)
  <-> Forall (fun setaddr => entry_name setaddr ∈ dom m) l.
Proof.
  revert acc. induction l as [|setaddr l IH]; intros acc; simpl.
  - split; [constructor | by eexists].
  - rewrite member_body_eq, Forall_cons, elem_of_dom.
    destruct (m !! entry_name setaddr) as [s'|]; simpl.
    + rewrite IH. split; [by split | by intros [_ ?]].
    + split; [by intros [s [=]] | by intros [[s [=]] _]].
Qed.

Lemma resolve_ok_iff m addr :
  (exists s, Zone.resolve m addr = Ok s) <-> entry_ok (dom m) addr.
Proof.
  unfold Zone.resolve, entry_ok.
  destruct (String.eqb (tag addr) "address").
  - rewrite is_ok_true.
    destruct (ip.IP_init (findtext addr [Child "ip-prefix"])) as [p|e]; simpl.
    + split; by eexists.
    + split; by intros [? [=]].
  - apply members_ok_iff.
Qed.

Lemma address_body_ok_iff m addr :
  (exists m', Zone.address_body m addr = Ok m') <-> entry_ok (dom m) addr.
Proof.
  rewrite <- resolve_ok_iff. unfold Zone.address_body. rewrite ok_bind_iff.
  split.
  - intros (s & Hs & _). by exists s.
  - intros [s Hs]. exists s. split; [done|]. by eexists.
Qed.

Lemma address_book_ok_iff (l : list Element) m :
  (exists m', for_each Zone.address_body l m = Ok m')
  <-> forall pre addr post,
        l = pre ++ addr :: post -> entry_ok (dom m ∪ entry_names pre) addr.
Proof.
  revert m. induction l as [|a l IH]; intros m; simpl.
  - split; [|by eexists]. intros _ [|? ?] ? ? [=].
  - rewrite ok_bind_iff. split.
    + intros (m1 & H1 & Hl) pre addr post Hsplit.
      destruct pre as [|a' pre]; simpl in Hsplit; injection Hsplit as <- ->.
      * rewrite entry_names_nil, (right_id_L ∅ (∪)).
        apply address_body_ok_iff. by exists m1.
      * apply address_body_Ok in H1 as (s & _ & ->).
        pose proof (proj1 (IH _) Hl pre addr post eq_refl) as Hok.
        rewrite dom_insert_L, names_insert_cons in Hok. exact Hok.
    + intros Hall.
      assert (entry_ok (dom m) a) as Ha.
      { pose proof (Hall [] a l eq_refl) as Ha.
        by rewrite entry_names_nil, (right_id_L ∅ (∪)) in Ha. }
      apply address_body_ok_iff in Ha as [m1 H1]. exists m1. split; [done|].
      apply IH. intros pre addr post ->.
      apply address_body_Ok in H1 as (s & _ & ->).
      rewrite dom_insert_L, names_insert_cons.
      by apply (Hall (a :: pre) addr post).
Qed.

End zones_more.

(** X10: a [security-zone] without [address-book] child is not parsed: the
    loop over [None] raises (a [TypeError], once the zone has a name), and
    the extraction of a document that holds such a zone raises. *)
Theorem zone_without_address_book_raises (sze : Element) :
  find sze [Child "address-book"] = None ->
  raises (Zone._from_xml sze) /\
  (is_Some (find sze [Child "name"]) -> Zone._from_xml sze = Raise TypeError) /\
  (forall scsze,
     sze ∈ findall scsze [Descendant "security-zone"] ->
     raises (Firewall._parse_zones scsze)).
Proof.
  intros Hbook. pose proof (Zone_from_xml_no_book sze Hbook) as Hraises.
  split; [done|]. split.
  - intros [elt Helt]. unfold Zone._from_xml. rewrite Zone_init_eq. simpl.
    rewrite Helt. simpl. by rewrite Hbook.
  - intros scsze Hin. by eapply parse_zones_raises.
Qed.

Lemma zone_without_address_book_raises_witness :
  Zone._from_xml samples.zone_no_book = Raise TypeError /\
  raises (Firewall._parse_zones
            (samples.zones_doc [samples.zone_empty_book; samples.zone_no_book])).
Proof.
  destruct (zone_without_address_book_raises samples.zone_no_book
              ltac:(vm_compute; reflexivity)) as (_ & Htype & Hdoc).
  split.
  - apply Htype. vm_compute. by eexists.
  - apply Hdoc. vm_compute. right. left.
Defined.

(** X11: the zone extraction returns one zone for each [security-zone]
    element of the document, in document order; a zone has the text of the
    first [name] child of its element for name, and for interfaces the
    texts, in document order, of the [name] children of the [interfaces]
    elements beneath it. *)
Theorem parse_zones_in_order (scsze : Element) (zs : list Zone.t) :
  Firewall._parse_zones scsze = Ok zs ->
  length zs = length (findall scsze [Descendant "security-zone"]) /\
  Forall2 (fun sz z =>
             Zone._from_xml sz = Ok z /\
             (exists n, find sz [Child "name"] = Some n /\
                        Zone.name z = text n) /\
             Zone.interfaces z
             = List.map text
                 (findall sz [Descendant "interfaces"; Child "name"]))
          (findall scsze [Descendant "security-zone"]) zs.
Proof.
  intros Hzs. apply parse_zones_Forall2 in Hzs. split.
  - symmetry. by eapply Forall2_length.
  - eapply Forall2_impl; [exact Hzs|]. intros sz z Hz. split; [done|].
    apply Zone_from_xml_Ok in Hz as (book & _ & _ & Hname & Hitf).
    split; [|done].
    destruct (find sz [Child "name"]) as [n|]; [|discriminate].
    injection Hname as <-. by exists n.
Qed.

Lemma parse_zones_in_order_witness :
  exists zs,
    Firewall._parse_zones
      (samples.zones_doc [samples.zone_empty_book; samples.zone_set_with_any])
    = Ok zs /\
    List.map Zone.name zs = [Some "untrust"; Some "trust"] /\
    List.map Zone.interfaces zs = [[Some "reth0.0"]; [Some "reth0.0"]] /\
    length zs = 2.
Proof.
  destruct (Firewall._parse_zones
              (samples.zones_doc
                 [samples.zone_empty_book; samples.zone_set_with_any]))
    as [zs|e] eqn:Hzs; [|vm_compute in Hzs; discriminate].
  exists zs. split; [done|].
  pose proof (proj1 (parse_zones_in_order _ zs Hzs)) as Hlen.
  vm_compute in Hzs. injection Hzs as <-.
  split; [reflexivity|]. split; [reflexivity|]. exact Hlen.
Defined.

(** X12: the names bound in the addresses of a zone are [any] and the
    names of the children of its address book, no other: nothing is ever
    removed from the mapping, and a child without [name] element is stored
    under [None]. *)
Theorem zone_address_names (sze : Element) (z : Zone.t) :
  Zone._from_xml sze = Ok z ->
  exists book,
    find sze [Child "address-book"] = Some book /\
    dom (Zone.addresses z) = {[Some "any"]} ∪ entry_names (children book).
Proof.
  intros Hz. apply Zone_from_xml_Ok in Hz as (book & Hbook & Hloop & _).
  exists book. split; [done|].
  rewrite (address_book_dom _ _ _ Hloop).
  unfold builtin_addresses. by rewrite dom_singleton_L.
Qed.

Lemma zone_address_names_witness :
  exists z,
    Zone._from_xml samples.zone_set_with_any = Ok z /\
    dom (Zone.addresses z) = {[Some "any"; Some "A"; Some "S"]}.
Proof.
  destruct (Zone._from_xml samples.zone_set_with_any) as [z|e] eqn:Hz;
    [|vm_compute in Hz; discriminate].
  exists z. split; [done|].
  destruct (zone_address_names _ z Hz) as (book & Hbook & Hdom).
  vm_compute in Hbook. injection Hbook as <-. rewrite Hdom.
  change (entry_names _)
    with ({[Some "A"]} ∪ ({[Some "S"]} ∪ ∅) : gset (option string)).
  rewrite (right_id_L ∅ (∪)). by rewrite !(assoc_L (∪)).
Defined.

(** X13: [Zone._from_xml] returns a zone exactly when the element has a
    [name] child and an [address-book] child in which every address has a
    prefix that reads as a network and every member of every other child
    bears a name that is [any] or the name of a child that comes before:
    forward references, a set naming itself included, are the only way for
    a set to fail. *)
Theorem zone_read_iff (sze : Element) :
  (exists z, Zone._from_xml sze = Ok z) <->
  is_Some (find sze [Child "name"]) /\
  exists book,
    find sze [Child "address-book"] = Some book /\
    forall pre addr post,
      children book = pre ++ addr :: post ->
      entry_ok ({[Some "any"]} ∪ entry_names pre) addr.
Proof.
  assert (dom builtin_addresses = ({[Some "any"]} : gset (option string)))
    as Hdom by (unfold builtin_addresses; by rewrite dom_singleton_L).
  split.
  - intros [z Hz]. apply Zone_from_xml_Ok in Hz as (book & Hbook & Hloop & Hname & _).
    split; [apply ok_text_of; eauto|]. exists book. split; [done|].
    rewrite <- Hdom. apply address_book_ok_iff. by eexists.
  - intros (Hname & book & Hbook & Hall).
    apply ok_text_of in Hname as [name Hname].
    rewrite <- Hdom in Hall. apply address_book_ok_iff in Hall as [m' Hm'].
    unfold Zone._from_xml. rewrite Zone_init_eq. simpl. rewrite Hname. simpl.
    rewrite Hbook. simpl. rewrite Hm'. simpl. by eexists.
Qed.

(** X14: a child of the address book whose tag is not [address] is read as
    an address-set, whatever its tag: without [address] children it binds
    its name ([None] when it has no [name] child) to the empty set, in any
    mapping and without exception, and the zone holds this binding unless a
    later child bears the same name. *)
Theorem zone_other_child_is_empty_set (addr : Element) :
  tag addr <> "address" ->
  findall addr [Child "address"] = [] ->
  (forall m : gmap (option string) ip.IPSet,
     Zone.address_body m addr = Ok (<[findtext addr [Child "name"] := []]> m))
  /\
  (forall sze book (pre post : list Element) z,
     Zone._from_xml sze = Ok z ->
     find sze [Child "address-book"] = Some book ->
     children book = pre ++ addr :: post ->
     Forall (fun later => findtext later [Child "name"]
                          <> findtext addr [Child "name"]) post ->
     Zone.addresses z !! findtext addr [Child "name"] = Some []).
Proof.
  intros Htag Hnone.
  assert (forall m : gmap (option string) ip.IPSet,
            Zone.resolve m addr = Ok []) as Hresolve.
  { intros m. unfold Zone.resolve. apply String.eqb_neq in Htag.
    by rewrite Htag, Hnone. }
  split.
  - intros m. unfold Zone.address_body. by rewrite Hresolve.
  - intros sze book pre post z Hz Hbook Hchildren Hlater.
    apply Zone_from_xml_Ok in Hz as (book' & Hbook' & Hloop & _).
    rewrite Hbook in Hbook'. injection Hbook' as <-.
    rewrite Hchildren in Hloop.
    apply address_book_split in Hloop as (m & s & _ & Hs & _ & Hend).
    rewrite Hresolve in Hs. injection Hs as <-. by apply Hend.
Qed.

Lemma zone_other_child_is_empty_set_witness :
  exists z,
    Zone._from_xml samples.zone_with_description = Ok z /\
    Zone.addresses z !! None = Some [].
Proof.
  destruct (Zone._from_xml samples.zone_with_description) as [z|e] eqn:Hz;
    [|vm_compute in Hz; discriminate].
  exists z. split; [done|].
  apply (proj2 (zone_other_child_is_empty_set
                  (samples.leaf "description" "servers")
                  ltac:(vm_compute; discriminate)
                  ltac:(vm_compute; reflexivity))
           samples.zone_with_description
           (Elem "address-book" None
              [ samples.leaf "description" "servers";
                samples.address "A" "10.0.0.0/24" ])
           [] [samples.address "A" "10.0.0.0/24"] z Hz).
  - vm_compute. reflexivity.
  - reflexivity.
  - repeat constructor. vm_compute. discriminate.
Defined.
